(** * evstate: event-based finite state machines

    A shallow embedding of [src/index.js] (class [FSM]) and the
    verification of its specification.

    Modelling choices, all taken from the source:

    - A JavaScript function value is compared by reference ([!==] in
      [off]), so a function is represented by its identity [fn]; what a
      function does when it is called is given by the runtime ([call_fn],
      a parameter of the development).  A call may change the caller's
      world, may read the engine, and may complete normally or throw.
      The engine is synchronous and not re-entrant: a handler does not
      call [on], [off], [onError] or [emit] on the engine that is running
      it, and does not assign its fields.
    - The transition table is a plain object whose values are arrays of
      state names or [null]; it is an association list in property order,
      so that [Object.keys] is the list of its first components (the keys
      of an object are pairwise distinct; nothing below depends on it).
      Reading a property the table does not own gives [undefined], or a
      member of [Object.prototype]; neither has an [indexOf] method, so
      that both end in the same [TypeError].
    - The handler registry [_transitions] is an object created by [{}]
      and used as a map from string keys to arrays of functions: a [gmap],
      read by [_transitions[k]] and written by [_transitions[k] = v].  Two
      property names are special on such an object, and the model follows
      the code on both.  The name [__proto__] is never an own property:
      assigning an array to it installs the array as the prototype, and
      reading it gives that array back, so that the entry of [__proto__]
      in the map is the prototype slot, and [hasOwnProperty] answers false
      for it.  The name [hasOwnProperty] is the method [on] and [off]
      call: once the registry owns an entry of that name, the entry (an
      array) shadows the method, and calling it is a [TypeError].
    - Methods mutate [this] and may throw: they are computations in a
      state-and-exception monad [M] over the [machine] (the engine, the
      caller's world, and the log of the calls the engine made).  State
      changes made before a throw persist, as in JavaScript. *)

From Stdlib Require Import ZArith.
From stdpp Require Import base strings list gmap.

Local Open Scope Z_scope.

(** ** Values, exceptions, completions *)

(** Identity of a function object. *)
Definition fn := nat.

Inductive value :=
| VUndefined
| VString (s : string)
| VNumber (z : Z)
| VObject (addr : nat).

(** What can be thrown: [new Error(msg)] (the only exception the engine
    constructs), a [TypeError] of the runtime (property access on
    [null]/[undefined], iteration over [undefined]), or any value a handler
    throws. *)
Inductive exn :=
| Error (msg : string)
| TypeError
| Thrown (v : value).

Inductive completion (A : Type) :=
| Normal (a : A)
| Throw (e : exn).
Arguments Normal {A} a.
Arguments Throw {A} e.

(** Value returned by the chainable methods and by [emit]. *)
Inductive retval :=
| RThis
| RBool (b : bool).

(** ** The engine *)

(** [static ANY = 'anyStateChange'] *)
Definition ANY : string := "anyStateChange".

Record FSM := mkFSM {
  _allowedTransitions : list (string * option (list string));
  currentState : string;
  _errorHandler : option fn;
  _knownStates : list string;
  _transitions : gmap string (list fn);
}.

(** [Object.keys(o)] *)
Definition Object_keys {V} (o : list (string * V)) : list string := o.*1.

(** [o[k]]: [None] is [undefined]. *)
Fixpoint get_prop {V} (o : list (string * V)) (k : string) : option V :=
  match o with
  | [] => None
  | (k', v) :: o' => if decide (k' = k) then Some v else get_prop o' k
  end.

(** [Array.prototype.indexOf] on an array of strings. *)
Fixpoint indexOf_from (i : Z) (a : list string) (x : string) : Z :=
  match a with
  | [] => -1
  | y :: a' => if decide (y = x) then i else indexOf_from (i + 1) a' x
  end.
Definition indexOf (a : list string) (x : string) : Z := indexOf_from 0 a x.

(** The constructor. *)
Definition new_FSM (transitions : list (string * option (list string)))
    (initialState : string) : FSM :=
  let knownStates := Object_keys transitions in
  {| _allowedTransitions := transitions;
     currentState := initialState;
     _errorHandler := None;
     _knownStates := knownStates;
     _transitions :=
       foldl (λ reg stateName, <[stateName := []]> reg)
             (<[ANY := []]> ∅) knownStates |}.

(** Property assignments on the engine. *)
Definition assign_currentState (e : FSM) (s : string) : FSM :=
  {| _allowedTransitions := _allowedTransitions e;
     currentState := s;
     _errorHandler := _errorHandler e;
     _knownStates := _knownStates e;
     _transitions := _transitions e |}.

Definition assign_errorHandler (e : FSM) (h : option fn) : FSM :=
  {| _allowedTransitions := _allowedTransitions e;
     currentState := currentState e;
     _errorHandler := h;
     _knownStates := _knownStates e;
     _transitions := _transitions e |}.

Definition assign_transitions (e : FSM) (reg : gmap string (list fn)) : FSM :=
  {| _allowedTransitions := _allowedTransitions e;
     currentState := currentState e;
     _errorHandler := _errorHandler e;
     _knownStates := _knownStates e;
     _transitions := reg |}.

(** ** Machine state and the monad of methods *)

(** Calls made by the engine, by call site: a transition handler called
    from [emit], or the error handler called from [handleError]. *)
Inductive event :=
| HandlerCall (f : fn) (args : list value)
| ErrorCall (f : fn) (msg : string).

(** The log entries of calling the handlers [hs] with [args], in order. *)
Definition handler_calls (hs : list fn) (args : list value) : list event :=
  map (λ h, HandlerCall h args) hs.

Record machine (W : Type) := mkMachine {
  this : FSM;
  heap : W;
  calls : list event;
}.
Arguments mkMachine {W} this heap calls.
Arguments this {W} m.
Arguments heap {W} m.
Arguments calls {W} m.

Section Engine.

Context {W : Type}.

(** The runtime: calling function [f] with [args], with the engine
    visible to it, in world [w]. *)
Variable call_fn : fn → list value → FSM → W → completion unit * W.

Definition M (A : Type) : Type := machine W → completion A * machine W.

#[global] Instance M_ret : MRet M := λ A a m, (Normal a, m).
#[global] Instance M_bind : MBind M := λ A B k c m,
  match c m with
  | (Normal a, m') => k a m'
  | (Throw e, m') => (Throw e, m')
  end.

Definition throw {A} (e : exn) : M A := λ m, (Throw e, m).

Definition try_catch {A} (body : M A) (handler : exn → M A) : M A := λ m,
  match body m with
  | (Normal a, m') => (Normal a, m')
  | (Throw e, m') => handler e m'
  end.

Definition get_this : M FSM := λ m, (Normal (this m), m).

Definition set_this (e : FSM) : M unit := λ m,
  (Normal (), mkMachine e (heap m) (calls m)).

(** [f(...args)] at a call site that logs [ev]. *)
Definition invoke (ev : event) (f : fn) (args : list value) : M unit := λ m,
  let '(c, w) := call_fn f args (this m) (heap m) in
  (c, mkMachine (this m) w (calls m ++ [ev])).

(** [for (let x of xs) body(x)] *)
Fixpoint for_of {A} (xs : list A) (body : A → M unit) : M unit :=
  match xs with
  | [] => mret ()
  | x :: xs' => body x ;; for_of xs' body
  end.

(** *** Methods *)

Definition isValid (desiredState : string) : M bool :=
  self ← get_this;
  mret (0 <=? indexOf (_knownStates self) desiredState).

Definition canTransitionTo (desiredState : string) : M bool :=
  self ← get_this;
  match get_prop (_allowedTransitions self) (currentState self) with
  | Some (Some outgoing) => mret (0 <=? indexOf outgoing desiredState)
  | Some None => throw TypeError
  | None => throw TypeError
  end.

(** [this._transitions[k] = hs] *)
Definition set_handlers (k : string) (hs : list fn) : M unit :=
  self ← get_this;
  set_this (assign_transitions self (<[k := hs]> (_transitions self))).

(** [this._transitions[k]], an array to iterate over or to push to;
    iterating over or pushing to [undefined] is a [TypeError]. *)
Definition get_handlers (k : string) : M (list fn) :=
  self ← get_this;
  match _transitions self !! k with
  | Some hs => mret hs
  | None => throw TypeError
  end.

(** [this._transitions.hasOwnProperty(k)].  The method is looked up on
    the registry itself: an own entry named [hasOwnProperty] is an array,
    not a function, and calling it throws.  The prototype slot [__proto__]
    is not an own property. *)
Definition hasOwnProperty (k : string) : M bool :=
  self ← get_this;
  match _transitions self !! "hasOwnProperty" with
  | Some _ => throw TypeError
  | None =>
      mret (bool_decide (k ≠ "__proto__" ∧ is_Some (_transitions self !! k)))
  end.

Definition on (desiredState : string) (handler : fn) : M retval :=
  (if decide (desiredState ≠ ANY) then
     valid ← isValid desiredState;
     if negb valid then
       throw (Error ("Unable to hook up handler to unknown state "
                     +:+ desiredState +:+ "!"))
     else mret ()
   else mret ());;
  own ← hasOwnProperty desiredState;
  (if negb own then set_handlers desiredState [] else mret ());;
  hs ← get_handlers desiredState;
  set_handlers desiredState (hs ++ [handler]);;
  mret RThis.

Definition off (desiredState : string) (handler : fn) : M retval :=
  (if decide (desiredState ≠ ANY) then
     valid ← isValid desiredState;
     if negb valid then
       throw (Error ("Unable to remove handler from unknown state "
                     +:+ desiredState +:+ "!"))
     else mret ()
   else mret ());;
  own ← hasOwnProperty desiredState;
  (if negb own then set_handlers desiredState [] else mret ());;
  hs ← get_handlers desiredState;
  let revisedHandlers :=
    foldl (λ revised existingHandler,
             if decide (existingHandler ≠ handler)
             then revised ++ [existingHandler] else revised) [] hs in
  set_handlers desiredState revisedHandlers;;
  mret RThis.

Definition onError (handler : fn) : M retval :=
  self ← get_this;
  set_this (assign_errorHandler self (Some handler));;
  mret RThis.

Definition handleError (msg : string) : M unit :=
  self ← get_this;
  match _errorHandler self with
  | None => throw (Error ("No error handlers present: " +:+ msg))
  | Some f => invoke (ErrorCall f msg) f [VString msg]
  end.

Definition emit (desiredState : string) (args : list value) : M retval :=
  valid ← isValid desiredState;
  if negb valid then
    handleError ("Invalid state requested: " +:+ desiredState);;
    mret (RBool false)
  else
    allowed ← canTransitionTo desiredState;
    if negb allowed then
      self ← get_this;
      handleError ("Invalid transition from " +:+ currentState self
                   +:+ " requested: " +:+ desiredState);;
      mret (RBool false)
    else
      try_catch
        (anyHandlers ← get_handlers ANY;
         for_of anyHandlers (λ anyHandler,
           invoke (HandlerCall anyHandler args) anyHandler args);;
         transitionHandlers ← get_handlers desiredState;
         for_of transitionHandlers (λ transitionHandler,
           invoke (HandlerCall transitionHandler args) transitionHandler args);;
         self ← get_this;
         set_this (assign_currentState self desiredState))
        (λ err, throw err);;
      mret RThis.

(** *** Call sequences

    A caller drives the engine through its public methods; an exception
    that reaches the caller leaves the machine as it was at the throw. *)
Inductive method_call :=
| Call_on (desiredState : string) (handler : fn)
| Call_off (desiredState : string) (handler : fn)
| Call_onError (handler : fn)
| Call_isValid (desiredState : string)
| Call_canTransitionTo (desiredState : string)
| Call_emit (desiredState : string) (args : list value).

Definition perform (c : method_call) : M retval :=
  match c with
  | Call_on s h => on s h
  | Call_off s h => off s h
  | Call_onError h => onError h
  | Call_isValid s => b ← isValid s; mret (RBool b)
  | Call_canTransitionTo s => b ← canTransitionTo s; mret (RBool b)
  | Call_emit s args => emit s args
  end.

Definition run_calls (cs : list method_call) (m : machine W) : machine W :=
  foldl (λ m c, (perform c m).2) m cs.

(** *** Vocabulary of the statements *)

(** The handler sequence registered under key [k]. *)
Definition handlers (e : FSM) (k : string) : list fn :=
  default [] (_transitions e !! k).

(** Calling the functions [hs] one after the other with [args], stopping at
    the first that throws. *)
Fixpoint call_each (hs : list fn) (args : list value) (e : FSM) (w : W)
    : completion unit * W :=
  match hs with
  | [] => (Normal (), w)
  | h :: hs' =>
      match call_fn h args e w with
      | (Normal _, w') => call_each hs' args e w'
      | (Throw x, w') => (Throw x, w')
      end
  end.

(** The functions among [hs] that get called: all of them up to and
    including the first that throws. *)
Fixpoint called (hs : list fn) (args : list value) (e : FSM) (w : W)
    : list fn :=
  match hs with
  | [] => []
  | h :: hs' =>
      h :: match call_fn h args e w with
           | (Normal _, w') => called hs' args e w'
           | (Throw _, _) => []
           end
  end.

End Engine.

(** The guard of [on] and [off]: a state name that is neither the wildcard
    nor a known state. *)
Definition unknown_state (e : FSM) (s : string) : Prop :=
  s ≠ ANY ∧ s ∉ _knownStates e.

#[global] Instance unknown_state_dec e s : Decision (unknown_state e s).
Proof. unfold unknown_state. apply _. Defined.

(** The registry owns an entry named [hasOwnProperty], which shadows the
    method of that name. *)
Definition method_shadowed (e : FSM) : Prop :=
  is_Some (_transitions e !! "hasOwnProperty").

#[global] Instance method_shadowed_dec e : Decision (method_shadowed e).
Proof. unfold method_shadowed. apply _. Defined.

(** The array [on] and [off] start from under key [k]: the entry of [k]
    when the registry owns one, a fresh empty array otherwise (always so
    for [__proto__]). *)
Definition own_handlers (e : FSM) (k : string) : list fn :=
  if decide (k = "__proto__") then [] else default [] (_transitions e !! k).

(** The engine as the constructor leaves it, and as every method keeps it:
    the known states are the table's keys, and the registry has an entry
    for the wildcard and for every known state. *)
Definition wf (e : FSM) : Prop :=
  _knownStates e = Object_keys (_allowedTransitions e) ∧
  Forall (λ k, is_Some (_transitions e !! k)) (ANY :: _knownStates e).

#[global] Instance wf_dec e : Decision (wf e).
Proof. unfold wf. apply _. Defined.

(** ** The README's publishing workflow, and a sample runtime *)

Definition publishWorkflow_table : list (string * option (list string)) :=
  [ ("draft", Some ["inReview"]);
    ("inReview", Some ["changesNeeded"; "approved"]);
    ("changesNeeded", Some ["inReview"; "approved"]);
    ("approved", Some ["draft"; "scheduled"; "published"]);
    ("scheduled", Some ["draft"; "published"]);
    ("published", None) ]%string.

(** A world that records which functions ran.  Function 9 throws, after
    leaving its mark; every other function returns normally. *)
Definition sample_call (f : fn) (args : list value) (e : FSM) (w : list fn)
    : completion unit * list fn :=
  if decide (f = 9%nat) then (Throw (Thrown (VNumber 9)), w ++ [f])
  else (Normal (), w ++ [f]).

Definition fresh (e : FSM) : machine (list fn) := mkMachine e [] [].

(** The workflow in its initial state ['draft'], with no handler. *)
Definition workflow : machine (list fn) :=
  fresh (new_FSM publishWorkflow_table "draft").

(** Function 1 registered under the wildcard, function 2 registered twice
    under ['inReview'], function 5 as the error handler. *)
Definition workflow_with_handlers : machine (list fn) :=
  run_calls sample_call
    [Call_on ANY 1%nat; Call_on "inReview" 2%nat; Call_on "inReview" 2%nat;
     Call_onError 5%nat]
    workflow.

(** Function 1 under the wildcard, then the throwing function 9 and
    function 2 under ['inReview'], with function 9 as the error handler
    too. *)
Definition workflow_with_throwing_handlers : machine (list fn) :=
  run_calls sample_call
    [Call_on ANY 1%nat; Call_on "inReview" 9%nat; Call_on "inReview" 2%nat;
     Call_onError 9%nat]
    workflow.

(** The dispatches of the README, one of which is rejected. *)
Definition readme_calls : list method_call :=
  [Call_onError 5%nat;
   Call_emit "inReview" [VObject 0]; Call_emit "changesNeeded" [VObject 0];
   Call_emit "inReview" [VObject 0]; Call_emit "approved" [VObject 0];
   Call_emit "inReview" [VObject 0]; Call_emit "published" [VObject 0]].

(** ** Counting calls and registrations *)

#[global] Instance value_eq_dec : EqDecision value.
Proof. solve_decision. Defined.

#[global] Instance event_eq_dec : EqDecision event.
Proof. solve_decision. Defined.

(** How many times [g] occurs in the sequence [hs]. *)
Definition occurrences (g : fn) (hs : list fn) : nat :=
  length (filter (λ f, f = g) hs).

(** How many calls of handler [g] with [args] the log holds. *)
Definition times_called (g : fn) (args : list value) (log : list event) : nat :=
  length (filter (λ ev, ev = HandlerCall g args) log).

(** How many registrations of [g] a dispatch to [s] concerns: those under
    the wildcard key and those under [s] (one and the same key when [s] is
    the wildcard's name). *)
Definition registrations (e : FSM) (s : string) (g : fn) : nat :=
  if decide (s = ANY) then occurrences g (default [] (_transitions e !! ANY))
  else occurrences g (default [] (_transitions e !! ANY))
       + occurrences g (default [] (_transitions e !! s)).

(** ** Tables whose state names meet the registry's special names *)

(** A state named like the wildcard. *)
Definition wildcard_table : list (string * option (list string)) :=
  [ ("draft", Some ["anyStateChange"]); ("anyStateChange", None) ]%string.

(** The engine of that table in state ['draft'], with function 1
    registered once, under the wildcard. *)
Definition wildcard_workflow : machine (list fn) :=
  run_calls sample_call [Call_on ANY 1%nat]
    (fresh (new_FSM wildcard_table "draft")).

(** A state named like the method [on] and [off] call on the registry. *)
Definition shadowing_table : list (string * option (list string)) :=
  [ ("draft", Some ["hasOwnProperty"]); ("hasOwnProperty", None) ]%string.

(** A state named [__proto__] (a table read from JSON can have this key). *)
Definition proto_table : list (string * option (list string)) :=
  [ ("draft", Some ["__proto__"]); ("__proto__", None) ]%string.

(** ** The transition graph *)

(** A declared transition: [b] is in the outgoing array of [a]. *)
Definition transition (transitions : list (string * option (list string)))
    (a b : string) : Prop :=
  match get_prop transitions a with
  | Some (Some outgoing) => b ∈ outgoing
  | _ => False
  end.

(** A state with no way out: its outgoing list is [null], or an empty
    array, or it has no entry in the table. *)
Definition terminal (transitions : list (string * option (list string)))
    (a : string) : Prop :=
  match get_prop transitions a with
  | Some (Some (_ :: _)) => False
  | _ => True
  end.

#[global] Instance terminal_dec transitions a : Decision (terminal transitions a).
Proof. unfold terminal. repeat case_match; apply _. Defined.

(** ** More sample data *)

(** The workflow constructed in its terminal state ['published'], with
    function 5 as the error handler. *)
Definition published_workflow : machine (list fn) :=
  run_calls sample_call [Call_onError 5%nat]
    (fresh (new_FSM publishWorkflow_table "published")).

(** A runtime that behaves as [sample_call] as long as the engine it is
    shown is in state ['draft'], and throws otherwise. *)
Definition draft_only_call (f : fn) (args : list value) (e : FSM) (w : list fn)
    : completion unit * list fn :=
  if decide (currentState e = "draft") then sample_call f args e w
  else (Throw (Error "not a draft"), w).

(** * Verification *)

(** ** Arrays and objects *)

Lemma indexOf_from_found i a x :
  x ∈ a → i ≤ indexOf_from i a x.
Proof.
  revert i. induction a as [|y a IH]; intros i Hx; simpl.
  - by apply elem_of_nil in Hx.
  - destruct (decide (y = x)) as [->|Hne]; [lia|].
    apply elem_of_cons in Hx as [->|Hx]; [done|].
    specialize (IH (i + 1) Hx). lia.
Qed.

Lemma indexOf_from_missing i a x :
  x ∉ a → indexOf_from i a x = -1.
Proof.
  revert i. induction a as [|y a IH]; intros i Hx; simpl; [done|].
  apply not_elem_of_cons in Hx as [Hne Hx].
  destruct (decide (y = x)) as [->|_]; [done|]. by apply IH.
Qed.

(** [a.indexOf(x) >= 0] is membership. *)
Lemma indexOf_nonneg a x :
  (0 <=? indexOf a x) = bool_decide (x ∈ a).
Proof.
  unfold indexOf. destruct (decide (x ∈ a)) as [Hin|Hout].
  - rewrite bool_decide_eq_true_2 by done.
    apply Z.leb_le. by apply indexOf_from_found.
  - rewrite bool_decide_eq_false_2 by done.
    by rewrite indexOf_from_missing.
Qed.

Lemma get_prop_None {V} (o : list (string * V)) k :
  get_prop o k = None ↔ k ∉ Object_keys o.
Proof.
  unfold Object_keys. induction o as [|[k' v] o IH]; simpl.
  - split; [intros _; apply not_elem_of_nil|done].
  - rewrite not_elem_of_cons. destruct (decide (k' = k)) as [->|Hne].
    + split; [done|]. by intros [? _].
    + rewrite IH. split; [intros Hk; split; [congruence|done]|by intros [_ ?]].
Qed.

(** ** The constructor *)

Lemma registry_init_lookup (ks : list string) (reg : gmap string (list fn)) k :
  is_Some (reg !! k) ∨ k ∈ ks →
  is_Some (foldl (λ reg stateName, <[stateName := []]> reg) reg ks !! k).
Proof.
  revert reg. induction ks as [|k' ks IH]; intros reg [Hk|Hk]; simpl.
  - done.
  - by apply elem_of_nil in Hk.
  - apply IH. left. destruct (decide (k' = k)) as [->|Hne].
    + rewrite lookup_insert_eq. by eexists.
    + by rewrite lookup_insert_ne.
  - apply elem_of_cons in Hk as [->|Hk].
    + apply IH. left. rewrite lookup_insert_eq. by eexists.
    + apply IH. by right.
Qed.

Lemma registry_init_handlers (ks : list string) (reg : gmap string (list fn)) k :
  (∀ hs, reg !! k = Some hs → hs = []) →
  ∀ hs, foldl (λ reg stateName, <[stateName := []]> reg) reg ks !! k = Some hs →
        hs = [].
Proof.
  revert reg. induction ks as [|k' ks IH]; intros reg Hreg hs; simpl.
  - apply Hreg.
  - apply IH. intros hs'. destruct (decide (k' = k)) as [->|Hne].
    + rewrite lookup_insert_eq. congruence.
    + rewrite lookup_insert_ne by done. apply Hreg.
Qed.

Lemma wf_new_FSM transitions initialState :
  wf (new_FSM transitions initialState).
Proof.
  split; [done|]. simpl. apply Forall_forall. intros k Hk.
  apply registry_init_lookup. apply elem_of_cons in Hk as [->|Hk].
  - left. rewrite lookup_insert_eq. by eexists.
  - by right.
Qed.

(** The constructor registers no handler. *)
Lemma new_FSM_handlers transitions initialState k :
  handlers (new_FSM transitions initialState) k = [].
Proof.
  unfold handlers.
  destruct (_transitions (new_FSM transitions initialState) !! k)
    as [hs|] eqn:Hk; [|done].
  simpl in *. revert Hk. apply registry_init_handlers. intros hs'.
  destruct (decide (ANY = k)) as [->|Hne].
  - rewrite lookup_insert_eq. congruence.
  - by rewrite lookup_insert_ne.
Qed.

Lemma filter_absent (h : fn) (hs : list fn) :
  h ∉ hs → filter (λ g, g ≠ h) hs = hs.
Proof.
  induction hs as [|g hs IH]; [done|].
  intros [Hne Hout]%not_elem_of_cons.
  rewrite filter_cons_True by done. by rewrite IH.
Qed.

Section Facts.

Context {W : Type}.

Lemma machine_eta (m : machine W) : mkMachine (this m) (heap m) (calls m) = m.
Proof. by destruct m. Qed.

Lemma assign_transitions_id e : assign_transitions e (_transitions e) = e.
Proof. by destruct e. Qed.

(** ** Queries *)

Lemma isValid_eq (m : machine W) s :
  isValid s m = (Normal (bool_decide (s ∈ _knownStates (this m))), m).
Proof.
  unfold isValid, get_this, mbind, M_bind, mret, M_ret.
  by rewrite indexOf_nonneg.
Qed.

Lemma canTransitionTo_eq (m : machine W) t :
  canTransitionTo t m =
  match get_prop (_allowedTransitions (this m)) (currentState (this m)) with
  | Some (Some outgoing) => (Normal (bool_decide (t ∈ outgoing)), m)
  | _ => (Throw TypeError, m)
  end.
Proof.
  unfold canTransitionTo, get_this, mbind, M_bind, mret, M_ret, throw.
  destruct (get_prop _ _) as [[outgoing|]|]; try done.
  by rewrite indexOf_nonneg.
Qed.

(** ** Registration *)

(** The removal loop of [off] is a filter. *)
Lemma revised_filter (handler : fn) (hs acc : list fn) :
  foldl (λ revised existingHandler,
           if decide (existingHandler ≠ handler)
           then revised ++ [existingHandler] else revised) acc hs
  = acc ++ filter (λ g, g ≠ handler) hs.
Proof.
  revert acc. induction hs as [|g hs IH]; intros acc; simpl.
  - by rewrite app_nil_r.
  - rewrite IH. destruct (decide (g ≠ handler)) as [Hne|Heq].
    + rewrite filter_cons_True by done. by rewrite <- app_assoc.
    + by rewrite filter_cons_False.
Qed.

Lemma on_eq (m : machine W) s h :
  on s h m =
  if decide (unknown_state (this m) s) then
    (Throw (Error ("Unable to hook up handler to unknown state " +:+ s +:+ "!")), m)
  else if decide (method_shadowed (this m)) then (Throw TypeError, m)
  else
    (Normal RThis,
     mkMachine
       (assign_transitions (this m)
          (<[s := own_handlers (this m) s ++ [h]]> (_transitions (this m))))
       (heap m) (calls m)).
Proof.
  unfold on, unknown_state, own_handlers, hasOwnProperty,
    get_handlers, set_handlers.
  unfold mbind, M_bind. destruct m as [e w l].
  destruct (decide (s ≠ ANY)) as [Hne|Heq];
    [rewrite isValid_eq; destruct (decide (s ∈ _knownStates e)) as [Hin|Hout]|];
    unfold mret, M_ret, throw, get_this, set_this; simpl.
  - rewrite bool_decide_eq_true_2 by done. simpl.
    rewrite decide_False by tauto.
    destruct (decide (method_shadowed e)) as [[hm Hm]|Hm%eq_None_not_Some];
      rewrite Hm; simpl; [done|].
    destruct (decide (s = "__proto__")) as [Hp|Hp];
      destruct (_transitions e !! s) as [hs|] eqn:Hs;
      first [rewrite bool_decide_eq_true_2 by eauto
            |rewrite bool_decide_eq_false_2 by (intros [? [? ?]]; done)];
      simpl; rewrite ?Hs, ?lookup_insert_eq; simpl;
      by rewrite ?insert_insert_eq.
  - rewrite bool_decide_eq_false_2 by done. simpl.
    by rewrite decide_True by tauto.
  - rewrite decide_False by tauto.
    destruct (decide (method_shadowed e)) as [[hm Hm]|Hm%eq_None_not_Some];
      rewrite Hm; simpl; [done|].
    destruct (decide (s = "__proto__")) as [Hp|Hp];
      destruct (_transitions e !! s) as [hs|] eqn:Hs;
      first [rewrite bool_decide_eq_true_2 by eauto
            |rewrite bool_decide_eq_false_2 by (intros [? [? ?]]; done)];
      simpl; rewrite ?Hs, ?lookup_insert_eq; simpl;
      by rewrite ?insert_insert_eq.
Qed.

Lemma off_eq (m : machine W) s h :
  off s h m =
  if decide (unknown_state (this m) s) then
    (Throw (Error ("Unable to remove handler from unknown state " +:+ s +:+ "!")), m)
  else if decide (method_shadowed (this m)) then (Throw TypeError, m)
  else
    (Normal RThis,
     mkMachine
       (assign_transitions (this m)
          (<[s := filter (λ g, g ≠ h) (own_handlers (this m) s)]>
             (_transitions (this m))))
       (heap m) (calls m)).
Proof.
  unfold off, unknown_state, own_handlers, hasOwnProperty,
    get_handlers, set_handlers.
  unfold mbind, M_bind. destruct m as [e w l].
  destruct (decide (s ≠ ANY)) as [Hne|Heq];
    [rewrite isValid_eq; destruct (decide (s ∈ _knownStates e)) as [Hin|Hout]|];
    unfold mret, M_ret, throw, get_this, set_this; simpl.
  - rewrite bool_decide_eq_true_2 by done. simpl.
    rewrite decide_False by tauto.
    destruct (decide (method_shadowed e)) as [[hm Hm]|Hm%eq_None_not_Some];
      rewrite Hm; simpl; [done|].
    destruct (decide (s = "__proto__")) as [Hp|Hp];
      destruct (_transitions e !! s) as [hs|] eqn:Hs;
      first [rewrite bool_decide_eq_true_2 by eauto
            |rewrite bool_decide_eq_false_2 by (intros [? [? ?]]; done)];
      simpl; rewrite ?Hs, ?lookup_insert_eq; simpl;
      by rewrite ?insert_insert_eq, ?revised_filter.
  - rewrite bool_decide_eq_false_2 by done. simpl.
    by rewrite decide_True by tauto.
  - rewrite decide_False by tauto.
    destruct (decide (method_shadowed e)) as [[hm Hm]|Hm%eq_None_not_Some];
      rewrite Hm; simpl; [done|].
    destruct (decide (s = "__proto__")) as [Hp|Hp];
      destruct (_transitions e !! s) as [hs|] eqn:Hs;
      first [rewrite bool_decide_eq_true_2 by eauto
            |rewrite bool_decide_eq_false_2 by (intros [? [? ?]]; done)];
      simpl; rewrite ?Hs, ?lookup_insert_eq; simpl;
      by rewrite ?insert_insert_eq, ?revised_filter.
Qed.

Lemma onError_eq (m : machine W) h :
  onError h m =
  (Normal RThis,
   mkMachine (assign_errorHandler (this m) (Some h)) (heap m) (calls m)).
Proof. done. Qed.

(** ** Calling handlers *)

Variable call_fn : fn → list value → FSM → W → completion unit * W.

Lemma call_each_app hs1 hs2 args e (w : W) :
  call_each call_fn (hs1 ++ hs2) args e w =
  match call_each call_fn hs1 args e w with
  | (Normal _, w1) => call_each call_fn hs2 args e w1
  | (Throw x, w1) => (Throw x, w1)
  end.
Proof.
  revert w. induction hs1 as [|h hs1 IH]; intros w; simpl; [done|].
  destruct (call_fn h args e w) as [[[]|x] w1]; [apply IH|done].
Qed.

Lemma called_app hs1 hs2 args e (w : W) :
  called call_fn (hs1 ++ hs2) args e w =
  called call_fn hs1 args e w ++
  match call_each call_fn hs1 args e w with
  | (Normal _, w1) => called call_fn hs2 args e w1
  | (Throw _, _) => []
  end.
Proof.
  revert w. induction hs1 as [|h hs1 IH]; intros w; simpl; [done|].
  destruct (call_fn h args e w) as [[[]|x] w1]; [by rewrite IH|done].
Qed.

Lemma called_all hs args e (w w' : W) :
  call_each call_fn hs args e w = (Normal (), w') →
  called call_fn hs args e w = hs.
Proof.
  revert w. induction hs as [|h hs IH]; intros w; simpl; [done|].
  destruct (call_fn h args e w) as [[[]|x] w1]; [|done].
  intros Hrest. f_equal. by apply IH.
Qed.

Lemma called_until pre h post args e (w w1 w2 : W) x :
  call_each call_fn pre args e w = (Normal (), w1) →
  call_fn h args e w1 = (Throw x, w2) →
  called call_fn (pre ++ h :: post) args e w = pre ++ [h] ∧
  call_each call_fn (pre ++ h :: post) args e w = (Throw x, w2).
Proof.
  revert w. induction pre as [|g pre IH]; intros w; simpl.
  - intros [= ->] ->. done.
  - destruct (call_fn g args e w) as [[[]|y] w']; [|done].
    intros Hpre Hh. destruct (IH _ Hpre Hh) as [-> ->]. done.
Qed.

(** The loops of [emit]: the engine is untouched, the world is threaded
    through the calls, and each call is logged. *)
Lemma for_of_invoke hs args (m : machine W) :
  for_of hs (λ h, invoke call_fn (HandlerCall h args) h args) m =
  (let (c, w) := call_each call_fn hs args (this m) (heap m) in
   (c, mkMachine (this m) w
         (calls m ++ handler_calls
                       (called call_fn hs args (this m) (heap m)) args))).
Proof.
  revert m. induction hs as [|h hs IH]; intros [e w l]; simpl.
  - by rewrite app_nil_r.
  - unfold mbind, M_bind, invoke at 1. simpl.
    destruct (call_fn h args e w) as [[[]|x] w1]; simpl.
    + rewrite IH. simpl. by rewrite <- app_assoc.
    + done.
Qed.

(** ** The error path *)

Lemma handleError_eq msg (m : machine W) :
  handleError call_fn msg m =
  match _errorHandler (this m) with
  | None => (Throw (Error ("No error handlers present: " +:+ msg)), m)
  | Some f =>
      let (c, w) := call_fn f [VString msg] (this m) (heap m) in
      (c, mkMachine (this m) w (calls m ++ [ErrorCall f msg]))
  end.
Proof.
  unfold handleError, get_this, mbind, M_bind, throw, invoke.
  by destruct (_errorHandler (this m)).
Qed.

(** ** Dispatch, branch by branch *)

Lemma emit_unknown s args (m : machine W) :
  s ∉ _knownStates (this m) →
  emit call_fn s args m =
  (handleError call_fn ("Invalid state requested: " +:+ s);;
   mret (RBool false)) m.
Proof.
  intros Hs. unfold emit. unfold mbind at 1, M_bind at 1.
  rewrite isValid_eq. by rewrite bool_decide_eq_false_2.
Qed.

Lemma emit_disallowed s args (m : machine W) :
  s ∈ _knownStates (this m) →
  canTransitionTo s m = (Normal false, m) →
  emit call_fn s args m =
  (handleError call_fn
     ("Invalid transition from " +:+ currentState (this m)
      +:+ " requested: " +:+ s);;
   mret (RBool false)) m.
Proof.
  intros Hs Hc. unfold emit. unfold mbind at 1, M_bind at 1.
  rewrite isValid_eq, bool_decide_eq_true_2 by done. simpl.
  unfold mbind at 1, M_bind at 1. by rewrite Hc.
Qed.

Lemma emit_TypeError s args (m : machine W) :
  s ∈ _knownStates (this m) →
  canTransitionTo s m = (Throw TypeError, m) →
  emit call_fn s args m = (Throw TypeError, m).
Proof.
  intros Hs Hc. unfold emit. unfold mbind at 1, M_bind at 1.
  rewrite isValid_eq, bool_decide_eq_true_2 by done. simpl.
  unfold mbind at 1, M_bind at 1. by rewrite Hc.
Qed.

Lemma emit_allowed s args (m : machine W) :
  s ∈ _knownStates (this m) →
  canTransitionTo s m = (Normal true, m) →
  emit call_fn s args m =
  match _transitions (this m) !! ANY, _transitions (this m) !! s with
  | Some anyHandlers, Some transitionHandlers =>
      let hs := anyHandlers ++ transitionHandlers in
      let (c, w) := call_each call_fn hs args (this m) (heap m) in
      let log := calls m ++ handler_calls
                              (called call_fn hs args (this m) (heap m)) args in
      match c with
      | Normal _ => (Normal RThis, mkMachine (assign_currentState (this m) s) w log)
      | Throw x => (Throw x, mkMachine (this m) w log)
      end
  | Some anyHandlers, None =>
      let (c, w) := call_each call_fn anyHandlers args (this m) (heap m) in
      let log := calls m ++ handler_calls
                   (called call_fn anyHandlers args (this m) (heap m)) args in
      match c with
      | Normal _ => (Throw TypeError, mkMachine (this m) w log)
      | Throw x => (Throw x, mkMachine (this m) w log)
      end
  | None, _ => (Throw TypeError, m)
  end.
Proof.
  intros Hs Hc. unfold emit. unfold mbind at 1, M_bind at 1.
  rewrite isValid_eq, bool_decide_eq_true_2 by done. simpl.
  unfold mbind at 1, M_bind at 1. rewrite Hc. simpl.
  unfold mbind at 1, M_bind at 1. unfold try_catch.
  unfold mbind at 1, M_bind at 1. unfold get_handlers at 1.
  unfold mbind at 1, M_bind at 1. unfold get_this at 1.
  destruct (_transitions (this m) !! ANY) as [ha|] eqn:Ha; [|done].
  unfold mret at 1, M_ret at 1.
  unfold mbind at 1, M_bind at 1. rewrite for_of_invoke.
  pose proof (call_each_app ha) as Heach. pose proof (called_app ha) as Hcalled.
  destruct (call_each call_fn ha args (this m) (heap m)) as [[[]|x] w1] eqn:Hany;
    simpl.
  - unfold mbind at 1, M_bind at 1, get_handlers at 1.
    unfold mbind at 1, M_bind at 1, get_this at 1. simpl.
    destruct (_transitions (this m) !! s) as [hs|] eqn:Htr; [|done].
    rewrite Heach, Hcalled, Hany.
    unfold mret at 1, M_ret at 1.
    unfold mbind at 1, M_bind at 1. rewrite for_of_invoke. simpl.
    destruct (call_each call_fn hs args (this m) w1) as [[[]|x] w2]; simpl.
    + unfold handler_calls. by rewrite map_app, app_assoc.
    + unfold handler_calls. by rewrite map_app, app_assoc.
  - destruct (_transitions (this m) !! s) as [hs|] eqn:Htr; [|done].
    rewrite Heach, Hcalled, Hany. by rewrite app_nil_r.
Qed.

(** The statements [this.handleError(msg); return false;] of [emit]. *)
Lemma reject_eq msg (m : machine W) :
  (handleError call_fn msg;; mret (RBool false)) m =
  match _errorHandler (this m) with
  | None => (Throw (Error ("No error handlers present: " +:+ msg)), m)
  | Some f =>
      let (c, w) := call_fn f [VString msg] (this m) (heap m) in
      (match c with Normal _ => Normal (RBool false) | Throw x => Throw x end,
       mkMachine (this m) w (calls m ++ [ErrorCall f msg]))
  end.
Proof.
  unfold mbind, M_bind. rewrite handleError_eq.
  destruct (_errorHandler (this m)) as [f|]; [|done].
  by destruct (call_fn f [VString msg] (this m) (heap m)) as [[[]|x] w].
Qed.

Lemma reject_this msg (m : machine W) :
  this ((handleError call_fn msg;; mret (RBool false)) m).2 = this m.
Proof.
  rewrite reject_eq. destruct (_errorHandler (this m)) as [f|]; [|done].
  by destruct (call_fn f [VString msg] (this m) (heap m)) as [c w].
Qed.

(** ** What a method call can do to the engine *)

Lemma emit_this s args (m : machine W) :
  this (emit call_fn s args m).2 = this m ∨
  (this (emit call_fn s args m).2 = assign_currentState (this m) s ∧
   s ∈ _knownStates (this m) ∧
   canTransitionTo s m = (Normal true, m)).
Proof.
  destruct (decide (s ∈ _knownStates (this m))) as [Hs|Hs].
  - destruct (canTransitionTo s m) as [[[|]|x] m'] eqn:Hc.
    + assert (m' = m) as ->.
      { rewrite canTransitionTo_eq in Hc. repeat case_match; congruence. }
      rewrite emit_allowed by done.
      destruct (_transitions (this m) !! ANY) as [ha|]; [|by left].
      destruct (_transitions (this m) !! s) as [hs|].
      * cbv zeta. destruct (call_each _ _ _ _ _) as [[[]|x] w]; simpl; auto.
      * destruct (call_each _ _ _ _ _) as [[[]|x] w]; simpl; auto.
    + assert (m' = m) as ->.
      { rewrite canTransitionTo_eq in Hc. repeat case_match; congruence. }
      left. rewrite emit_disallowed by done. apply reject_this.
    + assert (m' = m ∧ x = TypeError) as [-> ->].
      { rewrite canTransitionTo_eq in Hc. repeat case_match; split; congruence. }
      left. by rewrite emit_TypeError.
  - left. rewrite emit_unknown by done. apply reject_this.
Qed.

Lemma perform_this c (m : machine W) :
  let e := this m in
  let e' := this (perform call_fn c m).2 in
  e' = e ∨
  (∃ k hs, e' = assign_transitions e (<[k := hs]> (_transitions e))) ∨
  (∃ h, e' = assign_errorHandler e (Some h)) ∨
  (∃ s args, c = Call_emit s args ∧ e' = assign_currentState e s ∧
             s ∈ _knownStates e ∧ canTransitionTo s m = (Normal true, m)).
Proof.
  destruct c as [s h|s h|h|s|s|s args]; cbn [perform]; cbv zeta.
  - rewrite on_eq. repeat case_decide; simpl; eauto.
  - rewrite off_eq. repeat case_decide; simpl; eauto.
  - right. right. left. eauto.
  - left. unfold mbind, M_bind. by rewrite isValid_eq.
  - left. unfold mbind, M_bind. rewrite canTransitionTo_eq.
    by destruct (get_prop _ _) as [[outgoing|]|].
  - destruct (emit_this s args m) as [->|(-> & ? & ?)]; [by left|].
    right. right. right. by exists s, args.
Qed.

Lemma wf_perform c (m : machine W) :
  wf (this m) → wf (this (perform call_fn c m).2).
Proof.
  intros [Hks Hreg].
  destruct (perform_this c m) as [->|[(k & hs & ->)|[(h & ->)|(s & a & _ & -> & _)]]];
    try done.
  split; [done|]. simpl. eapply Forall_impl; [exact Hreg|].
  intros k' Hk'. simpl. destruct (decide (k = k')) as [->|Hne].
  - rewrite lookup_insert_eq. by eexists.
  - by rewrite lookup_insert_ne.
Qed.

Lemma wf_run_calls cs (m : machine W) :
  wf (this m) → wf (this (run_calls call_fn cs m)).
Proof.
  revert m. induction cs as [|c cs IH]; intros m Hwf; simpl; [done|].
  apply IH. by apply wf_perform.
Qed.

(** Every engine a caller can get hold of is well formed. *)
Lemma wf_reachable transitions initialState (w : W) cs :
  wf (this (run_calls call_fn cs
              (mkMachine (new_FSM transitions initialState) w []))).
Proof. apply wf_run_calls, wf_new_FSM. Qed.

(** The table and the known states are never reassigned. *)
Lemma run_calls_table cs (m : machine W) :
  _allowedTransitions (this (run_calls call_fn cs m)) = _allowedTransitions (this m) ∧
  _knownStates (this (run_calls call_fn cs m)) = _knownStates (this m).
Proof.
  revert m. induction cs as [|c cs IH]; intros m; simpl; [done|].
  destruct (IH (perform call_fn c m).2) as [-> ->].
  by destruct (perform_this c m)
    as [->|[(k & hs & ->)|[(h & ->)|(s & a & _ & -> & _)]]].
Qed.

(** A known current state stays known. *)
Lemma run_calls_known cs (m : machine W) :
  currentState (this m) ∈ _knownStates (this m) →
  currentState (this (run_calls call_fn cs m))
    ∈ _knownStates (this (run_calls call_fn cs m)).
Proof.
  revert m. induction cs as [|c cs IH]; intros m Hcur; simpl; [done|].
  apply IH.
  by destruct (perform_this c m)
    as [->|[(k & hs & ->)|[(h & ->)|(s & a & _ & -> & ? & _)]]].
Qed.

(** An unknown current state has no entry in the table, so that no
    dispatch leaves it. *)
Lemma run_calls_stuck cs (m : machine W) :
  _knownStates (this m) = Object_keys (_allowedTransitions (this m)) →
  currentState (this m) ∉ _knownStates (this m) →
  currentState (this (run_calls call_fn cs m)) = currentState (this m).
Proof.
  revert m. induction cs as [|c cs IH]; intros m Hks Hcur; simpl; [done|].
  assert (_allowedTransitions (this (perform call_fn c m).2)
            = _allowedTransitions (this m) ∧
          _knownStates (this (perform call_fn c m).2) = _knownStates (this m) ∧
          currentState (this (perform call_fn c m).2) = currentState (this m))
    as (Ht & Hk & Hc).
  { destruct (perform_this c m)
      as [->|[(k & hs & ->)|[(h & ->)|(s & a & _ & -> & _ & Hcan)]]]; try done.
    rewrite canTransitionTo_eq in Hcan. rewrite Hks in Hcur.
    apply get_prop_None in Hcur. by rewrite Hcur in Hcan. }
  rewrite IH; [done|by rewrite Hk, Ht|by rewrite Hk, Hc].
Qed.

End Facts.

(** ** Counting calls *)

Lemma times_called_app g args log1 log2 :
  times_called g args (log1 ++ log2)
  = (times_called g args log1 + times_called g args log2)%nat.
Proof. unfold times_called. by rewrite filter_app, length_app. Qed.

Lemma times_called_handler_calls g args hs :
  times_called g args (handler_calls hs args) = occurrences g hs.
Proof.
  unfold times_called, occurrences, handler_calls.
  induction hs as [|h hs IH]; [done|]. simpl.
  destruct (decide (h = g)) as [->|Hne].
  - rewrite !filter_cons_True by done. simpl. by rewrite IH.
  - rewrite !filter_cons_False by congruence. done.
Qed.

(** * The claims *)

Section Claims.

Context {W : Type}.
Variable call_fn : fn → list value → FSM → W → completion unit * W.

(** ** Queries *)

(** C9. [isValid(s)] returns true exactly when [s] is a key of the
    transition table and false for every other input; in particular it
    returns false for the empty string and for the wildcard marker when
    these are not keys of the table.  It never throws and leaves the
    engine, the world and the call log as they were. *)
Theorem isValid_iff_table_key (m : machine W) (s : string) :
  wf (this m) →
  isValid s m =
    (Normal (bool_decide (s ∈ Object_keys (_allowedTransitions (this m)))), m)
  ∧ (s ∉ Object_keys (_allowedTransitions (this m)) →
     isValid s m = (Normal false, m))
  ∧ ("" ∉ Object_keys (_allowedTransitions (this m)) →
     isValid "" m = (Normal false, m))
  ∧ (ANY ∉ Object_keys (_allowedTransitions (this m)) →
     isValid ANY m = (Normal false, m)).
Proof.
  intros [Hks _]. rewrite !isValid_eq, Hks. split; [done|].
  by split_and!; intros Hout; rewrite bool_decide_eq_false_2.
Qed.

(** ** Dispatch *)

(** C3. When the requested state is not a known state, [emit] invokes the
    error path with the message "Invalid state requested: " followed by
    the state, and then returns false; when it is a known state but
    [canTransitionTo] answers false, [emit] invokes the error path with
    "Invalid transition from ", the current state, " requested: " and the
    state, and then returns false.  In both cases the engine, the current
    state included, is left as it was, whatever the error path does, a
    value returned is false, and no transition handler is called: the log
    gains no handler call. *)
Theorem emit_rejects_invalid_requests
    (m : machine W) (s : string) (args : list value) :
  let e := this m in
  let r := emit call_fn s args m in
  (s ∉ _knownStates e →
   r = (handleError call_fn ("Invalid state requested: " +:+ s);;
        mret (RBool false)) m)
  ∧ (s ∈ _knownStates e → canTransitionTo s m = (Normal false, m) →
     r = (handleError call_fn
            ("Invalid transition from " +:+ currentState e
             +:+ " requested: " +:+ s);;
          mret (RBool false)) m)
  ∧ (s ∉ _knownStates e ∨ canTransitionTo s m = (Normal false, m) →
     this r.2 = e
     ∧ (∀ v, r.1 = Normal v → v = RBool false)
     ∧ (∀ f a, HandlerCall f a ∈ calls r.2 → HandlerCall f a ∈ calls m)).
Proof.
  intros e r. split_and!.
  - intros Hs. by apply emit_unknown.
  - intros Hs Hc. by apply emit_disallowed.
  - intros Hrej.
    assert (∃ msg, r = (handleError call_fn msg;; mret (RBool false)) m)
      as [msg ->].
    { destruct (decide (s ∈ _knownStates e)) as [Hs|Hs].
      - destruct Hrej as [?|Hc]; [done|]. eexists. by apply emit_disallowed.
      - eexists. by apply emit_unknown. }
    rewrite reject_eq. fold e.
    destruct (_errorHandler e) as [f|]; [|by split_and!].
    destruct (call_fn f [VString msg] e (heap m)) as [[[]|x] w]; simpl.
    + split_and!; [done|by intros v [= <-]|].
      intros g a [Hin|Hin]%elem_of_app; [done|].
      by apply list_elem_of_singleton in Hin.
    + split_and!; [done|done|].
      intros g a [Hin|Hin]%elem_of_app; [done|].
      by apply list_elem_of_singleton in Hin.
Qed.

(** C4, as the code has it.  When [emit] takes the error path with message
    [msg]: with no error handler set, an [Error] whose message is
    "No error handlers present: " followed by [msg] reaches the caller of
    [emit] and nothing has changed; with an error handler set, it is called
    with [msg] and, when it returns, [emit] returns false and nothing is
    thrown, whereas an exception thrown by the error handler itself reaches
    the caller of [emit]. *)
Theorem emit_error_path_outcome
    (m : machine W) (s : string) (args : list value) (msg : string) :
  ((s ∉ _knownStates (this m)) ∧ msg = "Invalid state requested: " +:+ s)
  ∨ (s ∈ _knownStates (this m) ∧ canTransitionTo s m = (Normal false, m)
     ∧ msg = "Invalid transition from " +:+ currentState (this m)
             +:+ " requested: " +:+ s) →
  match _errorHandler (this m) with
  | None =>
      emit call_fn s args m =
        (Throw (Error ("No error handlers present: " +:+ msg)), m)
  | Some f =>
      let (c, w) := call_fn f [VString msg] (this m) (heap m) in
      let m' := mkMachine (this m) w (calls m ++ [ErrorCall f msg]) in
      match c with
      | Normal _ => emit call_fn s args m = (Normal (RBool false), m')
      | Throw x => emit call_fn s args m = (Throw x, m')
      end
  end.
Proof.
  intros Hrej.
  assert (emit call_fn s args m
          = (handleError call_fn msg;; mret (RBool false)) m) as ->.
  { destruct Hrej as [[Hs ->]|(Hs & Hc & ->)];
      [by apply emit_unknown|by apply emit_disallowed]. }
  rewrite reject_eq. destruct (_errorHandler (this m)) as [f|]; [|done].
  by destruct (call_fn f [VString msg] (this m) (heap m)) as [[[]|x] w].
Qed.

(** C5, as the code has it.  When the requested state is known,
    [canTransitionTo] answers true, and the handlers registered under the
    wildcard followed by those registered under the state all return
    normally when called with [args] one after the other, then [emit] calls
    the handlers of the wildcard in insertion order, then the handlers of
    the state in insertion order, each with [args]; afterwards the current
    state is the requested state, nothing else in the engine has changed,
    and [emit] returns the engine.  When the state is not named like the
    wildcard, every registration is called exactly once: a handler is
    called as many times as it is registered under the two keys. *)
Theorem emit_runs_handlers_then_moves
    (m : machine W) (s : string) (args : list value) (w' : W) :
  wf (this m) →
  s ∈ _knownStates (this m) →
  canTransitionTo s m = (Normal true, m) →
  call_each call_fn (handlers (this m) ANY ++ handlers (this m) s) args
    (this m) (heap m) = (Normal (), w') →
  let e := this m in
  let r := emit call_fn s args m in
  r = (Normal RThis,
       mkMachine
         (mkFSM (_allowedTransitions e) s (_errorHandler e) (_knownStates e)
            (_transitions e))
         w'
         (calls m ++ handler_calls (handlers e ANY) args
                  ++ handler_calls (handlers e s) args))
  ∧ currentState (this r.2) = s
  ∧ (s ≠ ANY →
     ∀ g, times_called g args (calls r.2)
          = (times_called g args (calls m) + registrations e s g)%nat).
Proof.
  intros [_ Hreg] Hs Hc Hrun e r. rewrite Forall_forall in Hreg.
  assert (r = (Normal RThis,
               mkMachine
                 (mkFSM (_allowedTransitions e) s (_errorHandler e)
                    (_knownStates e) (_transitions e))
                 w'
                 (calls m ++ handler_calls (handlers e ANY) args
                          ++ handler_calls (handlers e s) args))) as Hr.
  { subst r e. rewrite emit_allowed by done. unfold handlers in *.
    destruct (Hreg ANY) as [ha Ha]; [by left|].
    destruct (Hreg s) as [hs Hhs]; [by right|].
    rewrite Ha, Hhs in *. simpl in *.
    rewrite Hrun, (called_all _ _ _ _ _ _ Hrun).
    unfold handler_calls. by rewrite map_app. }
  rewrite Hr. split_and!; [done|done|].
  intros Hne g. simpl. unfold registrations, handlers.
  rewrite decide_False by done.
  by rewrite !times_called_app, !times_called_handler_calls, Nat.add_assoc.
Qed.

(** C6. When the requested state is known and [canTransitionTo] answers
    true, and among the handlers registered under the wildcard followed by
    those registered under the state the handlers [pre] return normally
    and the next one, [h], throws [x], then [emit] throws [x] itself to its
    caller; the error handler is not called (the log gains the calls of
    [pre] and [h] only); the engine, the current state included, is as it
    was; and the world is as [pre] and [h] left it. *)
Theorem emit_handler_exception_propagates
    (m : machine W) (s : string) (args : list value)
    (pre post : list fn) (h : fn) (x : exn) (w1 w2 : W) :
  wf (this m) →
  s ∈ _knownStates (this m) →
  canTransitionTo s m = (Normal true, m) →
  handlers (this m) ANY ++ handlers (this m) s = pre ++ h :: post →
  call_each call_fn pre args (this m) (heap m) = (Normal (), w1) →
  call_fn h args (this m) w1 = (Throw x, w2) →
  emit call_fn s args m =
    (Throw x,
     mkMachine (this m) w2 (calls m ++ handler_calls (pre ++ [h]) args)).
Proof.
  intros [_ Hreg] Hs Hc Hsplit Hpre Hh. rewrite Forall_forall in Hreg.
  rewrite emit_allowed by done. unfold handlers in *.
  destruct (Hreg ANY) as [ha Ha]; [by left|].
  destruct (Hreg s) as [hs Hhs]; [by right|].
  rewrite Ha, Hhs in *. simpl in *. rewrite Hsplit.
  destruct (called_until _ _ _ post _ _ _ _ _ _ Hpre Hh) as [-> ->]. done.
Qed.

(** ** The current state *)

(** C2, as the code has it.  The constructor does not validate the
    initial state.  After construction and any sequence of method calls
    (rejected dispatches and dispatches whose handlers throw included), the
    current state is a known state when the initial state is a key of the
    table; when it is not, the current state is still that unknown initial
    state. *)
Theorem currentState_known_iff_initial_known
    (transitions : list (string * option (list string)))
    (initialState : string) (w : W) (cs : list method_call) :
  let m := run_calls call_fn cs (mkMachine (new_FSM transitions initialState) w []) in
  (currentState (new_FSM transitions initialState) = initialState)
  ∧ (initialState ∈ Object_keys transitions →
     currentState (this m) ∈ _knownStates (this m))
  ∧ (initialState ∉ Object_keys transitions →
     currentState (this m) = initialState
     ∧ currentState (this m) ∉ _knownStates (this m)).
Proof.
  intros m. subst m. split_and!; [done|..].
  - intros Hin. by apply run_calls_known.
  - intros Hout.
    destruct (run_calls_table call_fn cs
                (mkMachine (new_FSM transitions initialState) w [])) as [_ Hk].
    rewrite Hk, run_calls_stuck; done.
Qed.

(** C10. For an engine constructed with an initial state that is a key of
    the table, after any sequence of calls of [on], [off], [onError],
    [isValid], [canTransitionTo] and [emit], [isValid] answers true for the
    current state; and a further call changes the current state only if
    it is an [emit] whose target it becomes, a target for which [isValid]
    answered true. *)
Theorem currentState_stays_known
    (transitions : list (string * option (list string)))
    (initialState : string) (w : W) (cs : list method_call) :
  initialState ∈ Object_keys transitions →
  let m := run_calls call_fn cs (mkMachine (new_FSM transitions initialState) w []) in
  currentState (this m) ∈ _knownStates (this m)
  ∧ isValid (currentState (this m)) m = (Normal true, m)
  ∧ ∀ c, currentState (this (perform call_fn c m).2) ≠ currentState (this m) →
         ∃ s args, c = Call_emit s args
                   ∧ currentState (this (perform call_fn c m).2) = s
                   ∧ isValid s m = (Normal true, m).
Proof.
  intros Hin m.
  assert (currentState (this m) ∈ _knownStates (this m)) as Hcur
    by by apply run_calls_known.
  split_and!; [done|by rewrite isValid_eq, bool_decide_eq_true_2|].
  intros c Hchg.
  destruct (perform_this call_fn c m)
    as [Heq|[(k & hs & Heq)|[(h & Heq)|(s & a & -> & Heq & Hs & _)]]];
    try (by rewrite Heq in Hchg).
  exists s, a. rewrite Heq. split_and!; [done|done|].
  by rewrite isValid_eq, bool_decide_eq_true_2.
Qed.

End Claims.

(** C1 (the code departs from the claim).  On the README's table, whose
    terminal state ['published'] has the outgoing list [null],
    [canTransitionTo(t)] from ['published'] throws a [TypeError] for every
    [t] instead of returning false; so does [canTransitionTo(t)] when the
    current state is not a key of the table. *)
Theorem canTransitionTo_throws_without_outgoing_list (t : string) :
  canTransitionTo t (fresh (new_FSM publishWorkflow_table "published"))
    = (Throw TypeError, fresh (new_FSM publishWorkflow_table "published"))
  ∧ canTransitionTo t (fresh (new_FSM publishWorkflow_table "nopenopenope"))
    = (Throw TypeError, fresh (new_FSM publishWorkflow_table "nopenopenope")).
Proof. by rewrite !canTransitionTo_eq. Qed.

(** C7 (the code departs from the claim).  On a table with a state named
    ['hasOwnProperty'], the constructor stores an array under that name in
    the registry, and [on] then throws a [TypeError] for every legal state
    and for the wildcard, instead of appending the handler and returning
    the engine.  On a table with a state named ['__proto__'], [on] starts
    from a fresh empty array at every call, so that after two
    registrations only the second handler is there. *)
Theorem on_breaks_on_prototype_names (h : fn) :
  isValid "draft" (fresh (new_FSM shadowing_table "draft"))
    = (Normal true, fresh (new_FSM shadowing_table "draft"))
  ∧ on "draft" h (fresh (new_FSM shadowing_table "draft"))
    = (Throw TypeError, fresh (new_FSM shadowing_table "draft"))
  ∧ on ANY h (fresh (new_FSM shadowing_table "draft"))
    = (Throw TypeError, fresh (new_FSM shadowing_table "draft"))
  ∧ isValid "__proto__" (fresh (new_FSM proto_table "draft"))
    = (Normal true, fresh (new_FSM proto_table "draft"))
  ∧ handlers
      (this (on "__proto__" h
               (on "__proto__" 1%nat (fresh (new_FSM proto_table "draft"))).2).2)
      "__proto__"
    = [h].
Proof. rewrite !on_eq. split_and!; reflexivity. Qed.

(** C8 (the code departs from the claim).  On a table with a state named
    ['hasOwnProperty'], [off] throws a [TypeError] for every legal state
    and for the wildcard, instead of returning the engine.  On a table
    with a state named ['__proto__'], [off] of a function that is not
    registered under that state removes the handlers that are. *)
Theorem off_breaks_on_prototype_names (h : fn) :
  off "draft" h (fresh (new_FSM shadowing_table "draft"))
    = (Throw TypeError, fresh (new_FSM shadowing_table "draft"))
  ∧ off ANY h (fresh (new_FSM shadowing_table "draft"))
    = (Throw TypeError, fresh (new_FSM shadowing_table "draft"))
  ∧ handlers
      (this (on "__proto__" 1%nat (fresh (new_FSM proto_table "draft"))).2)
      "__proto__"
    = [1%nat]
  ∧ handlers
      (this (off "__proto__" 2%nat
               (on "__proto__" 1%nat (fresh (new_FSM proto_table "draft"))).2).2)
      "__proto__"
    = [].
Proof. rewrite !off_eq, !on_eq. split_and!; reflexivity. Qed.

(** * The claims on the README's workflow *)

(** The model on the end-to-end scenario of the specification. *)
Example readme_scenario :
  let m := run_calls sample_call readme_calls workflow in
  currentState (this m) = "published"
  ∧ calls m = [ErrorCall 5%nat "Invalid transition from approved requested: inReview"]
  ∧ (emit sample_call "inReview" [VObject 0]
       (run_calls sample_call (take 5 readme_calls) workflow)).1
    = Normal (RBool false).
Proof. by vm_compute. Qed.

(** C9 on the workflow: ['draft'] is valid; ['nopenopenope'], the empty
    string and the wildcard are not. *)
Lemma isValid_iff_table_key_witness :
  wf (this workflow)
  ∧ isValid "draft" workflow = (Normal true, workflow)
  ∧ isValid "nopenopenope" workflow = (Normal false, workflow)
  ∧ isValid "" workflow = (Normal false, workflow)
  ∧ isValid ANY workflow = (Normal false, workflow).
Proof.
  assert (Hwf : wf (this workflow)) by compute_done.
  split; [exact Hwf|].
  destruct (isValid_iff_table_key workflow "draft" Hwf) as (Hd & _ & He & Ha).
  destruct (isValid_iff_table_key workflow "nopenopenope" Hwf) as (_ & Hn & _).
  split_and!.
  - exact Hd.
  - apply Hn. compute_done.
  - apply He. compute_done.
  - apply Ha. compute_done.
Defined.

(** C3 on the workflow, in state ['draft']: ['nopenopenope'] is not a
    state, and ['published'] cannot be reached from ['draft']. *)
Lemma emit_rejects_invalid_requests_witness :
  emit sample_call "nopenopenope" [VObject 0] workflow_with_handlers
    = (Normal (RBool false),
       mkMachine (this workflow_with_handlers) [5%nat]
         [ErrorCall 5%nat "Invalid state requested: nopenopenope"])
  ∧ emit sample_call "published" [VObject 0] workflow_with_handlers
    = (Normal (RBool false),
       mkMachine (this workflow_with_handlers) [5%nat]
         [ErrorCall 5%nat "Invalid transition from draft requested: published"])
  ∧ this (emit sample_call "published" [VObject 0] workflow_with_handlers).2
    = this workflow_with_handlers.
Proof.
  destruct (emit_rejects_invalid_requests sample_call workflow_with_handlers
              "nopenopenope" [VObject 0]) as (Hunknown & _ & _).
  destruct (emit_rejects_invalid_requests sample_call workflow_with_handlers
              "published" [VObject 0]) as (_ & Hdisallowed & Hsame).
  split_and!.
  - rewrite Hunknown by compute_done. reflexivity.
  - rewrite Hdisallowed; [reflexivity|compute_done|reflexivity].
  - apply Hsame. right. reflexivity.
Defined.

(** C4 on the workflow, whose error handler (function 5) returns. *)
Lemma emit_error_path_outcome_witness :
  (("nopenopenope" ∉ _knownStates (this workflow_with_handlers))
   ∧ "Invalid state requested: nopenopenope"
     = "Invalid state requested: " +:+ "nopenopenope")
  ∧ emit sample_call "nopenopenope" [VObject 0] workflow_with_handlers
    = (Normal (RBool false),
       mkMachine (this workflow_with_handlers) [5%nat]
         [ErrorCall 5%nat "Invalid state requested: nopenopenope"]).
Proof.
  assert (("nopenopenope" ∉ _knownStates (this workflow_with_handlers))
          ∧ "Invalid state requested: nopenopenope"
            = "Invalid state requested: " +:+ "nopenopenope") as Hrej
    by (split; [compute_done|reflexivity]).
  split; [exact Hrej|].
  exact (emit_error_path_outcome sample_call workflow_with_handlers
           "nopenopenope" [VObject 0] _ (or_introl Hrej)).
Defined.

(** C4 as stated fails: with an error handler set (function 9) that throws,
    the rejected dispatch does not return false; the exception of the error
    handler reaches the caller. *)
Lemma emit_error_handler_may_throw :
  _errorHandler (this workflow_with_throwing_handlers) = Some 9%nat
  ∧ isValid "nopenopenope" workflow_with_throwing_handlers
    = (Normal false, workflow_with_throwing_handlers)
  ∧ (emit sample_call "nopenopenope" [VObject 0]
       workflow_with_throwing_handlers).1 = Throw (Thrown (VNumber 9))
  ∧ (emit sample_call "nopenopenope" [VObject 0]
       workflow_with_throwing_handlers).1 ≠ Normal (RBool false).
Proof. split_and!; [reflexivity..|discriminate]. Qed.

(** C5 on the workflow: function 1 (wildcard) is called once, then
    function 2, registered twice, is called twice, and the current state
    is ['inReview']. *)
Lemma emit_runs_handlers_then_moves_witness :
  wf (this workflow_with_handlers)
  ∧ "inReview" ∈ _knownStates (this workflow_with_handlers)
  ∧ canTransitionTo "inReview" workflow_with_handlers
    = (Normal true, workflow_with_handlers)
  ∧ "inReview" ≠ ANY
  ∧ (emit sample_call "inReview" [VObject 0] workflow_with_handlers).1
    = Normal RThis
  ∧ currentState
      (this (emit sample_call "inReview" [VObject 0] workflow_with_handlers).2)
    = "inReview"
  ∧ currentState (this workflow_with_handlers) = "draft"
  ∧ calls (emit sample_call "inReview" [VObject 0] workflow_with_handlers).2
    = [HandlerCall 1%nat [VObject 0]; HandlerCall 2%nat [VObject 0];
       HandlerCall 2%nat [VObject 0]]
  ∧ times_called 2%nat [VObject 0]
      (calls (emit sample_call "inReview" [VObject 0]
                workflow_with_handlers).2)
    = 2%nat
  ∧ registrations (this workflow_with_handlers) "inReview" 2%nat = 2%nat.
Proof.
  assert (Hwf : wf (this workflow_with_handlers)) by compute_done.
  assert (Hs : "inReview" ∈ _knownStates (this workflow_with_handlers))
    by compute_done.
  assert (Hc : canTransitionTo "inReview" workflow_with_handlers
               = (Normal true, workflow_with_handlers)) by reflexivity.
  assert (Hne : "inReview" ≠ ANY) by compute_done.
  destruct (emit_runs_handlers_then_moves sample_call workflow_with_handlers
              "inReview" [VObject 0] [1; 2; 2]%nat Hwf Hs Hc eq_refl)
    as (Hr & Hcur & Hcount).
  split_and!; [exact Hwf|exact Hs|exact Hc|exact Hne| |exact Hcur|reflexivity
               | | |reflexivity].
  - by rewrite Hr.
  - by rewrite Hr.
  - by rewrite (Hcount Hne 2%nat).
Defined.

(** C5 as stated fails.  On a table with a state named like the wildcard,
    function 1 is registered once, by one call of [on]; the dispatch to
    that state calls it twice: the wildcard loop and the state's loop read
    the same array. *)
Lemma emit_to_wildcard_name_calls_twice :
  wf (this wildcard_workflow)
  ∧ ANY ∈ _knownStates (this wildcard_workflow)
  ∧ canTransitionTo ANY wildcard_workflow = (Normal true, wildcard_workflow)
  ∧ handlers (this wildcard_workflow) ANY = [1%nat]
  ∧ handlers (this wildcard_workflow) "draft" = []
  ∧ registrations (this wildcard_workflow) ANY 1%nat = 1%nat
  ∧ (emit sample_call ANY [VObject 0] wildcard_workflow).1 = Normal RThis
  ∧ calls (emit sample_call ANY [VObject 0] wildcard_workflow).2
    = [HandlerCall 1%nat [VObject 0]; HandlerCall 1%nat [VObject 0]]
  ∧ times_called 1%nat [VObject 0]
      (calls (emit sample_call ANY [VObject 0] wildcard_workflow).2)
    = 2%nat.
Proof. split_and!; try reflexivity; compute_done. Qed.

(** C6 on the workflow: function 1 runs, function 9 throws, function 2 is
    not called, and the state is still ['draft']. *)
Lemma emit_handler_exception_propagates_witness :
  wf (this workflow_with_throwing_handlers)
  ∧ "inReview" ∈ _knownStates (this workflow_with_throwing_handlers)
  ∧ canTransitionTo "inReview" workflow_with_throwing_handlers
    = (Normal true, workflow_with_throwing_handlers)
  ∧ emit sample_call "inReview" [VObject 0] workflow_with_throwing_handlers
    = (Throw (Thrown (VNumber 9)),
       mkMachine (this workflow_with_throwing_handlers) [1; 9]%nat
         [HandlerCall 1%nat [VObject 0]; HandlerCall 9%nat [VObject 0]])
  ∧ currentState (this workflow_with_throwing_handlers) = "draft".
Proof.
  assert (Hwf : wf (this workflow_with_throwing_handlers)) by compute_done.
  assert (Hs : "inReview" ∈ _knownStates (this workflow_with_throwing_handlers))
    by compute_done.
  assert (Hc : canTransitionTo "inReview" workflow_with_throwing_handlers
               = (Normal true, workflow_with_throwing_handlers)) by reflexivity.
  split_and!; [exact Hwf|exact Hs|exact Hc| |reflexivity].
  exact (emit_handler_exception_propagates sample_call
           workflow_with_throwing_handlers "inReview" [VObject 0]
           [1%nat] [2%nat] 9%nat (Thrown (VNumber 9)) [1%nat] [1; 9]%nat
           Hwf Hs Hc eq_refl eq_refl eq_refl).
Defined.

(** C2 as stated fails: the constructor accepts an initial state that is
    not a key of the table, and the current state is then not a known
    state. *)
Lemma currentState_unknown_after_construction :
  currentState (new_FSM publishWorkflow_table "nopenopenope")
    ∉ _knownStates (new_FSM publishWorkflow_table "nopenopenope").
Proof. compute_done. Qed.

(** C2 on the workflow: after the README's dispatches the current state is
    known; constructed in ['nopenopenope'], the engine stays there. *)
Lemma currentState_known_iff_initial_known_witness :
  currentState (this (run_calls sample_call readme_calls workflow))
    ∈ _knownStates (this (run_calls sample_call readme_calls workflow))
  ∧ currentState
      (this (run_calls sample_call readme_calls
               (fresh (new_FSM publishWorkflow_table "nopenopenope"))))
    = "nopenopenope".
Proof.
  split.
  - apply (currentState_known_iff_initial_known sample_call
             publishWorkflow_table "draft" [] readme_calls).
    compute_done.
  - apply (currentState_known_iff_initial_known sample_call
             publishWorkflow_table "nopenopenope" [] readme_calls).
    compute_done.
Defined.

(** C10 on the workflow: after the README's dispatches, the current state
    ['published'] is known. *)
Lemma currentState_stays_known_witness :
  "draft" ∈ Object_keys publishWorkflow_table
  ∧ isValid (currentState (this (run_calls sample_call readme_calls workflow)))
      (run_calls sample_call readme_calls workflow)
    = (Normal true, run_calls sample_call readme_calls workflow).
Proof.
  assert (Hin : "draft" ∈ Object_keys publishWorkflow_table) by compute_done.
  split; [exact Hin|].
  apply (currentState_stays_known sample_call publishWorkflow_table "draft"
           [] readme_calls Hin).
Defined.

(** * Further properties of the engine *)

(** ** Helper lemmas *)

Lemma registry_init_dom (ks : list string) (reg : gmap string (list fn)) :
  dom (foldl (λ reg stateName, <[stateName := []]> reg) reg ks)
  = dom reg ∪ (list_to_set ks : gset string).
Proof.
  revert reg. induction ks as [|k ks IH]; intros reg; simpl.
  - by rewrite (right_id_L ∅ (∪)).
  - rewrite IH, dom_insert_L. apply set_eq. intros x.
    rewrite !elem_of_union. tauto.
Qed.

Lemma transition_canTransitionTo {W} (m : machine W) s :
  canTransitionTo s m = (Normal true, m) →
  transition (_allowedTransitions (this m)) (currentState (this m)) s.
Proof.
  rewrite canTransitionTo_eq. unfold transition.
  destruct (get_prop _ _) as [[outgoing|]|]; [|done..].
  intros [= Hin]. by apply bool_decide_eq_true in Hin.
Qed.

Lemma terminal_no_transition transitions a b :
  terminal transitions a → ¬ transition transitions a b.
Proof.
  unfold terminal, transition.
  destruct (get_prop transitions a) as [[[|c outgoing]|]|]; try tauto.
  intros _ Hin. by apply elem_of_nil in Hin.
Qed.

Lemma handlers_assigned e reg s hs :
  handlers (assign_transitions e (<[s := hs]> reg)) s = hs.
Proof. unfold handlers. simpl. by rewrite lookup_insert_eq. Qed.

Lemma handlers_assigned_ne e reg s k hs :
  k ≠ s →
  handlers (assign_transitions e (<[s := hs]> reg)) k = default [] (reg !! k).
Proof. intros Hne. unfold handlers. simpl. by rewrite lookup_insert_ne. Qed.

Lemma assign_transitions_twice e reg s hs hs' :
  assign_transitions (assign_transitions e (<[s := hs]> reg))
    (<[s := hs']> (<[s := hs]> reg))
  = assign_transitions e (<[s := hs']> reg).
Proof. unfold assign_transitions. simpl. by rewrite insert_insert_eq. Qed.

Lemma new_FSM_dom transitions initialState :
  dom (_transitions (new_FSM transitions initialState))
  = {[ANY]} ∪ (list_to_set (Object_keys transitions) : gset string).
Proof.
  simpl. rewrite registry_init_dom, dom_insert_L, dom_empty_L.
  by rewrite (right_id_L ∅ (∪)).
Qed.

Lemma own_handlers_eq e k :
  k ≠ "__proto__" → own_handlers e k = handlers e k.
Proof. intros Hne. unfold own_handlers, handlers. by rewrite decide_False. Qed.

Lemma own_handlers_assigned e reg s hs :
  own_handlers (assign_transitions e (<[s := hs]> reg)) s
  = if decide (s = "__proto__") then [] else hs.
Proof.
  unfold own_handlers. simpl. case_decide; [done|].
  by rewrite lookup_insert_eq.
Qed.

Lemma own_handlers_assigned_ne e reg s k hs :
  k ≠ s →
  own_handlers (assign_transitions e (<[s := hs]> reg)) k
  = own_handlers (assign_transitions e reg) k.
Proof.
  intros Hne. unfold own_handlers. simpl. case_decide; [done|].
  by rewrite lookup_insert_ne.
Qed.

Lemma legal_owned e s :
  wf e → ¬ unknown_state e s → is_Some (_transitions e !! s).
Proof.
  intros [_ Hreg] Hs. rewrite Forall_forall in Hreg. apply Hreg.
  unfold unknown_state in Hs.
  destruct (decide (s = ANY)) as [->|Hne]; [by left|]. right.
  destruct (decide (s ∈ _knownStates e)); [done|tauto].
Qed.

(** On a well-formed engine whose method is not shadowed, no legal state
    is named like the method. *)
Lemma legal_not_method e s :
  wf e → ¬ method_shadowed e → ¬ unknown_state e s → s ≠ "hasOwnProperty".
Proof. intros Hwf Hm Hs ->. apply Hm. by apply legal_owned. Qed.

Lemma method_shadowed_assigned e s hs :
  s ≠ "hasOwnProperty" →
  method_shadowed (assign_transitions e (<[s := hs]> (_transitions e)))
  ↔ method_shadowed e.
Proof.
  intros Hne. unfold method_shadowed. simpl. by rewrite lookup_insert_ne.
Qed.

Lemma wf_assigned e s hs :
  wf e → wf (assign_transitions e (<[s := hs]> (_transitions e))).
Proof.
  intros [Hks Hreg]. split; [done|]. simpl.
  eapply Forall_impl; [exact Hreg|]. intros k Hk. simpl.
  destruct (decide (s = k)) as [->|Hne].
  - rewrite lookup_insert_eq. by eexists.
  - by rewrite lookup_insert_ne.
Qed.

(** [on] and [off] past their two guards. *)
Lemma on_normal {W} (m : machine W) s h :
  ¬ unknown_state (this m) s → ¬ method_shadowed (this m) →
  on s h m =
  (Normal RThis,
   mkMachine
     (assign_transitions (this m)
        (<[s := own_handlers (this m) s ++ [h]]> (_transitions (this m))))
     (heap m) (calls m)).
Proof. intros Hs Hm. by rewrite on_eq, !decide_False. Qed.

Lemma off_normal {W} (m : machine W) s h :
  ¬ unknown_state (this m) s → ¬ method_shadowed (this m) →
  off s h m =
  (Normal RThis,
   mkMachine
     (assign_transitions (this m)
        (<[s := filter (λ g, g ≠ h) (own_handlers (this m) s)]>
           (_transitions (this m))))
     (heap m) (calls m)).
Proof. intros Hs Hm. by rewrite off_eq, !decide_False. Qed.

Section MoreFacts.

Context {W : Type}.
Variable call_fn : fn → list value → FSM → W → completion unit * W.

(** A method call leaves the registry alone or assigns the entry of a
    legal key. *)
Lemma perform_registry c (m : machine W) :
  let e := this m in
  let e' := this (perform call_fn c m).2 in
  _transitions e' = _transitions e ∨
  ∃ k hs, (k = ANY ∨ k ∈ _knownStates e)
          ∧ _transitions e' = <[k := hs]> (_transitions e).
Proof.
  assert (∀ s, ¬ unknown_state (this m) s → s = ANY ∨ s ∈ _knownStates (this m))
    as Hlegal.
  { intros s Hs. unfold unknown_state in Hs.
    destruct (decide (s = ANY)); [by left|].
    destruct (decide (s ∈ _knownStates (this m))); [by right|tauto]. }
  destruct c as [s h|s h|h|s|s|s args]; cbn [perform]; cbv zeta.
  - rewrite on_eq. repeat case_decide; simpl; [by left..|].
    right. eexists s, _. split; [by apply Hlegal|done].
  - rewrite off_eq. repeat case_decide; simpl; [by left..|].
    right. eexists s, _. split; [by apply Hlegal|done].
  - by left.
  - left. unfold mbind, M_bind. by rewrite isValid_eq.
  - left. unfold mbind, M_bind. rewrite canTransitionTo_eq.
    by destruct (get_prop _ _) as [[outgoing|]|].
  - left. by destruct (emit_this call_fn s args m) as [->|(-> & _)].
Qed.

(** A method call keeps the current state or follows a declared
    transition. *)
Lemma perform_transition c (m : machine W) :
  let e := this m in
  let e' := this (perform call_fn c m).2 in
  currentState e' = currentState e ∨
  transition (_allowedTransitions e) (currentState e) (currentState e').
Proof.
  destruct (perform_this call_fn c m)
    as [->|[(k & hs & ->)|[(h & ->)|(s & a & _ & -> & _ & Hcan)]]];
    cbv zeta; [by left..|].
  right. by apply transition_canTransitionTo.
Qed.

Lemma perform_table c (m : machine W) :
  _allowedTransitions (this (perform call_fn c m).2)
  = _allowedTransitions (this m)
  ∧ _knownStates (this (perform call_fn c m).2) = _knownStates (this m).
Proof. apply (run_calls_table call_fn [c] m). Qed.

Lemma call_each_ext (call_fn' : fn → list value → FSM → W → completion unit * W)
    hs args e (w : W) :
  (∀ f a w, call_fn f a e w = call_fn' f a e w) →
  call_each call_fn hs args e w = call_each call_fn' hs args e w
  ∧ called call_fn hs args e w = called call_fn' hs args e w.
Proof.
  intros Hagree. revert w. induction hs as [|h hs IH]; intros w; simpl; [done|].
  rewrite Hagree. destruct (call_fn' h args e w) as [[[]|x] w1]; [|done].
  destruct (IH w1) as [-> ->]. done.
Qed.

End MoreFacts.

(** ** The constructor *)

(** X1. The constructor keeps the table and the initial state as given,
    leaves the error handler unset, takes the table's keys as the known
    states, and creates an empty handler sequence for the wildcard and for
    every known state, and for nothing else. *)
Theorem new_FSM_initial_engine
    (transitions : list (string * option (list string)))
    (initialState : string) :
  let e := new_FSM transitions initialState in
  _allowedTransitions e = transitions
  ∧ currentState e = initialState
  ∧ _errorHandler e = None
  ∧ _knownStates e = Object_keys transitions
  ∧ dom (_transitions e)
    = {[ANY]} ∪ (list_to_set (Object_keys transitions) : gset string)
  ∧ (∀ k, k ∈ dom (_transitions e) → _transitions e !! k = Some [])
  ∧ (∀ k, handlers e k = []).
Proof.
  intros e. split_and!; try done.
  - apply new_FSM_dom.
  - intros k [hs Hk]%elem_of_dom. rewrite Hk. f_equal.
    pose proof (new_FSM_handlers transitions initialState k) as Hhs.
    unfold handlers in Hhs. fold e in Hhs. by rewrite Hk in Hhs.
  - apply new_FSM_handlers.
Qed.

Section Extras.

Context {W : Type}.
Variable call_fn : fn → list value → FSM → W → completion unit * W.

(** ** Queries *)

(** X2. When the outgoing list of the current state is an array,
    [canTransitionTo(t)] returns true exactly when [t] is in that array
    (so false for every [t] when the array is empty), never throws and
    changes nothing. *)
Theorem canTransitionTo_iff_listed
    (m : machine W) (t : string) (outgoing : list string) :
  get_prop (_allowedTransitions (this m)) (currentState (this m))
    = Some (Some outgoing) →
  canTransitionTo t m = (Normal (bool_decide (t ∈ outgoing)), m)
  ∧ (outgoing = [] → canTransitionTo t m = (Normal false, m)).
Proof.
  intros Hout. rewrite canTransitionTo_eq, Hout. split; [done|].
  intros ->. rewrite bool_decide_eq_false_2; [done|apply not_elem_of_nil].
Qed.

(** ** Dispatch *)

(** X3. When the current state has the outgoing list [null], or is not a
    key of the table, [emit] to any known state throws a [TypeError] and
    changes nothing: the error handler, even when one is set, is not
    called, and no transition handler is called. *)
Theorem emit_throws_TypeError_without_outgoing_list
    (m : machine W) (s : string) (args : list value) :
  s ∈ _knownStates (this m) →
  get_prop (_allowedTransitions (this m)) (currentState (this m)) = Some None
  ∨ get_prop (_allowedTransitions (this m)) (currentState (this m)) = None →
  emit call_fn s args m = (Throw TypeError, m).
Proof.
  intros Hs Hout. apply emit_TypeError; [done|].
  rewrite canTransitionTo_eq. by destruct Hout as [-> | ->].
Qed.

(** X8. Whatever happens in it, [emit] never assigns the table, the known
    states, the error handler or the registry; and the current state
    afterwards is the old one or the requested one. *)
Theorem emit_assigns_only_currentState
    (m : machine W) (s : string) (args : list value) :
  let e := this m in
  let e' := this (emit call_fn s args m).2 in
  _allowedTransitions e' = _allowedTransitions e
  ∧ _knownStates e' = _knownStates e
  ∧ _errorHandler e' = _errorHandler e
  ∧ _transitions e' = _transitions e
  ∧ (currentState e' = currentState e ∨ currentState e' = s).
Proof.
  intros e e'. subst e e'.
  destruct (emit_this call_fn s args m) as [->|(-> & _)]; simpl; tauto.
Qed.

(** X12. The functions [emit] calls (the transition handlers, and the
    error handler) are shown the engine as it is before the call of
    [emit], with the current state not yet updated: the outcome of [emit]
    depends on the runtime only through what functions do when shown that
    engine. *)
Theorem emit_shows_engine_before_transition
    (call_fn' : fn → list value → FSM → W → completion unit * W)
    (m : machine W) (s : string) (args : list value) :
  (∀ f a w, call_fn f a (this m) w = call_fn' f a (this m) w) →
  emit call_fn s args m = emit call_fn' s args m.
Proof.
  intros Hagree.
  assert (∀ msg, (handleError call_fn msg;; mret (RBool false)) m
                 = (handleError call_fn' msg;; mret (RBool false)) m) as Hrej.
  { intros msg. rewrite !reject_eq.
    destruct (_errorHandler (this m)) as [f|]; [|done]. by rewrite Hagree. }
  destruct (decide (s ∈ _knownStates (this m))) as [Hs|Hs].
  - destruct (canTransitionTo s m) as [[[|]|x] m'] eqn:Hc.
    + assert (m' = m) as ->.
      { rewrite canTransitionTo_eq in Hc. repeat case_match; congruence. }
      rewrite !emit_allowed by done.
      destruct (_transitions (this m) !! ANY) as [ha|]; [|done].
      destruct (_transitions (this m) !! s) as [hs|]; cbv zeta.
      * by destruct (call_each_ext call_fn call_fn' (ha ++ hs) args (this m)
                       (heap m) Hagree) as [-> ->].
      * by destruct (call_each_ext call_fn call_fn' ha args (this m)
                       (heap m) Hagree) as [-> ->].
    + assert (m' = m) as ->.
      { rewrite canTransitionTo_eq in Hc. repeat case_match; congruence. }
      rewrite !emit_disallowed by done. apply Hrej.
    + assert (m' = m ∧ x = TypeError) as [-> ->].
      { rewrite canTransitionTo_eq in Hc. repeat case_match; split; congruence. }
      by rewrite !emit_TypeError.
  - rewrite !emit_unknown by done. apply Hrej.
Qed.

End Extras.

Section Composition.

Context {W : Type}.
Variable call_fn : fn → list value → FSM → W → completion unit * W.

(** ** Registration, composed *)

(** X4. [onError] replaces the error handler and touches nothing else;
    after two calls of [onError] only the second function is the error
    handler: a dispatch to an unknown state calls it, once, with the
    message, and does not call the first. *)
Theorem onError_last_writer_wins
    (m : machine W) (h1 h2 : fn) (s : string) (args : list value) :
  s ∉ _knownStates (this m) →
  let m' := run_calls call_fn [Call_onError h1; Call_onError h2] m in
  let msg := "Invalid state requested: " +:+ s in
  m' = mkMachine (assign_errorHandler (this m) (Some h2)) (heap m) (calls m)
  ∧ emit call_fn s args m' =
    (let (c, w) := call_fn h2 [VString msg] (this m') (heap m) in
     (match c with Normal _ => Normal (RBool false) | Throw x => Throw x end,
      mkMachine (this m') w (calls m ++ [ErrorCall h2 msg]))).
Proof.
  intros Hs m' msg. split; [done|].
  rewrite emit_unknown by done. by rewrite reject_eq.
Qed.

(** X5. On an engine as the constructor and the methods leave it,
    unregistering a handler right after registering it under the same state
    is the same as unregistering it alone (registrations of the same
    function made earlier go too).  When moreover the registry's method is
    not shadowed, the state is legal and not named [__proto__], and the
    function was not registered under that state before, the pair of calls
    leaves the machine exactly as it was. *)
Theorem off_after_on (m : machine W) (s : string) (h : fn) :
  wf (this m) →
  off s h (on s h m).2 = off s h m
  ∧ (¬ method_shadowed (this m) → s ≠ "__proto__" →
     s = ANY ∨ s ∈ _knownStates (this m) →
     h ∉ handlers (this m) s →
     off s h (on s h m).2 = (Normal RThis, m)).
Proof.
  intros Hwf.
  assert (off s h (on s h m).2 = off s h m) as Hsame.
  { rewrite on_eq. destruct (decide (unknown_state (this m) s)) as [Hu|Hk];
      [done|].
    destruct (decide (method_shadowed (this m))) as [Hm|Hm]; [done|].
    pose proof (legal_not_method _ _ Hwf Hm Hk) as Hne.
    rewrite (off_normal m) by done. cbn [snd].
    rewrite off_normal; cbn [this heap calls];
      [|done|by rewrite method_shadowed_assigned].
    rewrite own_handlers_assigned, assign_transitions_twice.
    unfold own_handlers. case_decide; [done|].
    by rewrite filter_app, filter_cons_False, filter_nil, app_nil_r
      by (intros Hf; by apply Hf). }
  split; [done|]. intros Hm Hp Hlegal Hout. rewrite Hsame.
  rewrite off_normal by (done || (intros [? ?]; by destruct Hlegal)).
  rewrite own_handlers_eq, filter_absent by done.
  destruct (legal_owned (this m) s Hwf) as [hs Hhs];
    [intros [? ?]; by destruct Hlegal|].
  unfold handlers. rewrite Hhs. simpl.
  rewrite insert_id by done. by rewrite assign_transitions_id, machine_eta.
Qed.

(** X6. On an engine as the constructor and the methods leave it, [off] is
    idempotent: a second call with the same state and handler has the same
    outcome as the first and changes nothing more. *)
Theorem off_idempotent (m : machine W) (s : string) (h : fn) :
  wf (this m) →
  off s h (off s h m).2 = off s h m.
Proof.
  intros Hwf. rewrite (off_eq m).
  destruct (decide (unknown_state (this m) s)) as [Hu|Hk];
    [by rewrite off_eq, decide_True|].
  destruct (decide (method_shadowed (this m))) as [Hm|Hm];
    [by rewrite off_eq, decide_False, decide_True|].
  pose proof (legal_not_method _ _ Hwf Hm Hk) as Hne. cbn [snd].
  rewrite off_normal; cbn [this heap calls];
    [|done|by rewrite method_shadowed_assigned].
  rewrite own_handlers_assigned, assign_transitions_twice.
  case_decide as Hp.
  - unfold own_handlers. by rewrite decide_True.
  - rewrite filter_absent; [done|].
    rewrite list_elem_of_filter. by intros [? _].
Qed.

(** X7. Successive registrations under one legal state accumulate in call
    order: on an engine as the constructor and the methods leave it, whose
    registry's method is not shadowed, and for a state not named
    [__proto__], after [on(s, h1)], ..., [on(s, hn)] the handler sequence of
    [s] is the old one followed by [h1], ..., [hn], and the sequences of
    the other keys and the current state are as they were. *)
Theorem on_accumulates_in_call_order
    (m : machine W) (s : string) (hs : list fn) :
  wf (this m) →
  ¬ method_shadowed (this m) →
  s ≠ "__proto__" →
  s = ANY ∨ s ∈ _knownStates (this m) →
  let m' := run_calls call_fn (Call_on s <$> hs) m in
  handlers (this m') s = handlers (this m) s ++ hs
  ∧ (∀ k, k ≠ s → handlers (this m') k = handlers (this m) k)
  ∧ currentState (this m') = currentState (this m).
Proof.
  intros Hwf Hm Hp. revert m Hwf Hm.
  induction hs as [|h hs IH]; intros m Hwf Hm Hlegal; cbv zeta.
  - simpl. by rewrite app_nil_r.
  - change (run_calls call_fn (Call_on s <$> h :: hs) m)
      with (run_calls call_fn (Call_on s <$> hs) (on s h m).2).
    assert (¬ unknown_state (this m) s) as Hk
      by (intros [? ?]; by destruct Hlegal).
    pose proof (legal_not_method _ _ Hwf Hm Hk) as Hne.
    rewrite on_normal by done. cbn [snd].
    match goal with
    | |- context [run_calls _ _ ?m1] =>
        destruct (IH m1) as (H1 & H2 & H3);
          [by apply wf_assigned
          |cbn [this]; by rewrite method_shadowed_assigned
          |done|]
    end.
    cbn [this] in H1, H2, H3. split_and!.
    + rewrite H1, handlers_assigned, own_handlers_eq by done.
      by rewrite <- app_assoc.
    + intros k Hnk. rewrite H2 by done. by rewrite handlers_assigned_ne.
    + by rewrite H3.
Qed.

(** X13. On an engine as the constructor and the methods leave it,
    registrations under two different states commute. *)
Theorem on_commutes_across_states
    (m : machine W) (s1 s2 : string) (h1 h2 : fn) :
  wf (this m) →
  s1 ≠ s2 →
  run_calls call_fn [Call_on s1 h1; Call_on s2 h2] m
  = run_calls call_fn [Call_on s2 h2; Call_on s1 h1] m.
Proof.
  intros Hwf Hne.
  change ((on s2 h2 (on s1 h1 m).2).2 = (on s1 h1 (on s2 h2 m).2).2).
  rewrite (on_eq m s1), (on_eq m s2).
  destruct (decide (method_shadowed (this m))) as [Hm|Hm].
  { destruct (decide (unknown_state (this m) s1)) as [Hu1|Hk1];
      destruct (decide (unknown_state (this m) s2)) as [Hu2|Hk2];
      cbn [snd]; rewrite !on_eq;
      repeat (first [rewrite decide_True by done
                    |rewrite decide_False by done]); done. }
  destruct (decide (unknown_state (this m) s1)) as [Hu1|Hk1];
    destruct (decide (unknown_state (this m) s2)) as [Hu2|Hk2];
    cbn [snd].
  - by rewrite !on_eq, !decide_True.
  - rewrite (on_normal m s2) by done. cbn [snd].
    by rewrite on_eq, decide_True by exact Hu1.
  - rewrite (on_normal m s1) by done. cbn [snd].
    by rewrite on_eq, decide_True by exact Hu2.
  - pose proof (legal_not_method _ _ Hwf Hm Hk1) as Hn1.
    pose proof (legal_not_method _ _ Hwf Hm Hk2) as Hn2.
    rewrite (on_normal _ s2), (on_normal _ s1);
      [|exact Hk1|cbn [this]; by rewrite method_shadowed_assigned
       |exact Hk2|cbn [this]; by rewrite method_shadowed_assigned].
    cbn [this heap calls snd].
    rewrite !own_handlers_assigned_ne by done.
    rewrite !assign_transitions_id.
    unfold assign_transitions. simpl.
    by rewrite insert_insert_ne.
Qed.

(** ** The current state over call sequences *)

(** X9. After construction and any sequence of method calls, the current
    state is reachable from the initial state along transitions declared
    in the table. *)
Theorem currentState_reachable
    (transitions : list (string * option (list string)))
    (initialState : string) (w : W) (cs : list method_call) :
  rtc (transition transitions) initialState
    (currentState
       (this (run_calls call_fn cs
                (mkMachine (new_FSM transitions initialState) w [])))).
Proof.
  assert (∀ (m : machine W),
            _allowedTransitions (this m) = transitions →
            rtc (transition transitions) (currentState (this m))
              (currentState (this (run_calls call_fn cs m)))) as Hgen.
  { induction cs as [|c cs IH]; intros m Htbl; simpl; [done|].
    destruct (perform_table call_fn c m) as [Htbl' _].
    etrans; [|apply IH; by rewrite Htbl'].
    destruct (perform_transition call_fn c m) as [->|Hstep]; [done|].
    apply rtc_once. by rewrite <- Htbl. }
  by apply (Hgen (mkMachine (new_FSM transitions initialState) w [])).
Qed.

(** X10. A terminal state is absorbing: once the current state has a
    [null] or empty outgoing list (or no entry in the table), no sequence
    of method calls changes it. *)
Theorem terminal_state_absorbing (m : machine W) (cs : list method_call) :
  terminal (_allowedTransitions (this m)) (currentState (this m)) →
  currentState (this (run_calls call_fn cs m)) = currentState (this m).
Proof.
  revert m. induction cs as [|c cs IH]; intros m Hterm; simpl; [done|].
  destruct (perform_table call_fn c m) as [Htbl _].
  assert (currentState (this (perform call_fn c m).2) = currentState (this m))
    as Hcur.
  { destruct (perform_transition call_fn c m) as [?|Hstep]; [done|].
    by destruct (terminal_no_transition _ _ _ Hterm Hstep). }
  rewrite IH; [done|by rewrite Htbl, Hcur].
Qed.

(** X11. After construction and any sequence of method calls, the table
    and the known states are those of the construction, and the keys of
    the registry are still the wildcard and the known states: [on] and
    [off] never create an entry. *)
Theorem registry_keys_fixed
    (transitions : list (string * option (list string)))
    (initialState : string) (w : W) (cs : list method_call) :
  let e := this (run_calls call_fn cs
                   (mkMachine (new_FSM transitions initialState) w [])) in
  _allowedTransitions e = transitions
  ∧ _knownStates e = Object_keys transitions
  ∧ dom (_transitions e)
    = {[ANY]} ∪ (list_to_set (Object_keys transitions) : gset string).
Proof.
  intros e. subst e.
  destruct (run_calls_table call_fn cs
              (mkMachine (new_FSM transitions initialState) w []))
    as [Ht Hk].
  split_and!; [done|done|].
  assert (∀ (m : machine W),
            dom (_transitions (this m))
              = {[ANY]} ∪ (list_to_set (_knownStates (this m)) : gset string) →
            dom (_transitions (this (run_calls call_fn cs m)))
              = dom (_transitions (this m))) as Hgen.
  { clear. induction cs as [|c cs IH]; intros m Hdom; simpl; [done|].
    destruct (perform_table call_fn c m) as [_ Hk].
    assert (dom (_transitions (this (perform call_fn c m).2))
            = dom (_transitions (this m))) as Hstep.
    { destruct (perform_registry call_fn c m) as [->|(k & hs & Hlegal & ->)];
        [done|].
      rewrite dom_insert_L. apply set_eq. intros x.
      rewrite elem_of_union, elem_of_singleton. split; [|tauto].
      intros [->|?]; [|done]. rewrite Hdom, elem_of_union, elem_of_singleton.
      destruct Hlegal as [->|Hin]; [by left|right].
      by apply elem_of_list_to_set. }
    rewrite IH; [done|by rewrite Hstep, Hk]. }
  rewrite Hgen; apply new_FSM_dom.
Qed.

End Composition.

(** ** The further properties on the README's workflow *)

(** X2 on the workflow in state ['draft'], whose outgoing list is
    [['inReview']]. *)
Lemma canTransitionTo_iff_listed_witness :
  get_prop (_allowedTransitions (this workflow)) (currentState (this workflow))
    = Some (Some ["inReview"])
  ∧ canTransitionTo "inReview" workflow = (Normal true, workflow)
  ∧ canTransitionTo "published" workflow = (Normal false, workflow).
Proof.
  assert (Hout : get_prop (_allowedTransitions (this workflow))
                   (currentState (this workflow)) = Some (Some ["inReview"]))
    by reflexivity.
  split; [exact Hout|]. split.
  - exact (proj1 (canTransitionTo_iff_listed workflow "inReview" _ Hout)).
  - exact (proj1 (canTransitionTo_iff_listed workflow "published" _ Hout)).
Defined.

(** X3 on the workflow in its terminal state ['published']: the error
    handler is set, and is not called. *)
Lemma emit_throws_TypeError_without_outgoing_list_witness :
  "draft" ∈ _knownStates (this published_workflow)
  ∧ _errorHandler (this published_workflow) = Some 5%nat
  ∧ emit sample_call "draft" [VObject 0] published_workflow
    = (Throw TypeError, published_workflow).
Proof.
  assert (Hs : "draft" ∈ _knownStates (this published_workflow))
    by compute_done.
  split; [exact Hs|]. split; [reflexivity|].
  exact (emit_throws_TypeError_without_outgoing_list sample_call
           published_workflow "draft" [VObject 0] Hs (or_introl eq_refl)).
Defined.

(** X4 on the workflow: function 9 is replaced by function 5. *)
Lemma onError_last_writer_wins_witness :
  ("nopenopenope" ∉ _knownStates (this workflow))
  ∧ emit sample_call "nopenopenope" [VObject 0]
      (run_calls sample_call [Call_onError 9%nat; Call_onError 5%nat] workflow)
    = (Normal (RBool false),
       mkMachine (assign_errorHandler (this workflow) (Some 5%nat)) [5%nat]
         [ErrorCall 5%nat "Invalid state requested: nopenopenope"]).
Proof.
  assert (Hs : "nopenopenope" ∉ _knownStates (this workflow)) by compute_done.
  split; [exact Hs|].
  exact (proj2 (onError_last_writer_wins sample_call workflow 9%nat 5%nat
                  "nopenopenope" [VObject 0] Hs)).
Defined.

(** X5 on the workflow: function 7 is registered and unregistered. *)
Lemma off_after_on_witness :
  wf (this workflow_with_handlers)
  ∧ ¬ method_shadowed (this workflow_with_handlers)
  ∧ "inReview" ≠ "__proto__"
  ∧ (7%nat ∉ handlers (this workflow_with_handlers) "inReview")
  ∧ off "inReview" 7%nat (on "inReview" 7%nat workflow_with_handlers).2
    = (Normal RThis, workflow_with_handlers).
Proof.
  assert (Hwf : wf (this workflow_with_handlers)) by compute_done.
  assert (Hm : ¬ method_shadowed (this workflow_with_handlers))
    by compute_done.
  assert (Hp : "inReview" ≠ "__proto__") by compute_done.
  assert (Hout : 7%nat ∉ handlers (this workflow_with_handlers) "inReview")
    by compute_done.
  split_and!; [exact Hwf|exact Hm|exact Hp|exact Hout|].
  apply (off_after_on workflow_with_handlers "inReview" 7%nat Hwf);
    [exact Hm|exact Hp|right; compute_done|exact Hout].
Defined.

(** X6 on the workflow: unregistering function 2 from ['inReview']
    twice. *)
Lemma off_idempotent_witness :
  wf (this workflow_with_handlers)
  ∧ off "inReview" 2%nat (off "inReview" 2%nat workflow_with_handlers).2
    = off "inReview" 2%nat workflow_with_handlers
  ∧ handlers (this (off "inReview" 2%nat workflow_with_handlers).2) "inReview"
    = [].
Proof.
  assert (Hwf : wf (this workflow_with_handlers)) by compute_done.
  split_and!; [exact Hwf| |reflexivity].
  exact (off_idempotent workflow_with_handlers "inReview" 2%nat Hwf).
Defined.

(** X7 on the workflow: three registrations under ['approved']. *)
Lemma on_accumulates_in_call_order_witness :
  wf (this workflow_with_handlers)
  ∧ ¬ method_shadowed (this workflow_with_handlers)
  ∧ "approved" ≠ "__proto__"
  ∧ "approved" ∈ _knownStates (this workflow_with_handlers)
  ∧ handlers
      (this (run_calls sample_call (Call_on "approved" <$> [3; 4; 3]%nat)
               workflow_with_handlers)) "approved"
    = [3; 4; 3]%nat.
Proof.
  assert (Hwf : wf (this workflow_with_handlers)) by compute_done.
  assert (Hm : ¬ method_shadowed (this workflow_with_handlers))
    by compute_done.
  assert (Hp : "approved" ≠ "__proto__") by compute_done.
  assert (Hs : "approved" ∈ _knownStates (this workflow_with_handlers))
    by compute_done.
  split_and!; [exact Hwf|exact Hm|exact Hp|exact Hs|].
  exact (proj1 (on_accumulates_in_call_order sample_call workflow_with_handlers
                  "approved" [3; 4; 3]%nat Hwf Hm Hp (or_intror Hs))).
Defined.

(** X10 on the workflow in its terminal state ['published']. *)
Lemma terminal_state_absorbing_witness :
  terminal (_allowedTransitions (this published_workflow))
    (currentState (this published_workflow))
  ∧ currentState
      (this (run_calls sample_call
               [Call_emit "draft" [VObject 0]; Call_on ANY 1%nat;
                Call_emit "nopenopenope" []; Call_emit "published" []]
               published_workflow))
    = "published".
Proof.
  assert (Hterm : terminal (_allowedTransitions (this published_workflow))
                    (currentState (this published_workflow))) by compute_done.
  split; [exact Hterm|].
  exact (terminal_state_absorbing sample_call published_workflow _ Hterm).
Defined.

(** X12 on the workflow: a runtime whose functions throw when shown an
    engine that is not in state ['draft'] completes the dispatch from
    ['draft'] to ['inReview'] as the sample runtime does. *)
Lemma emit_shows_engine_before_transition_witness :
  (∀ f a w, sample_call f a (this workflow_with_handlers) w
            = draft_only_call f a (this workflow_with_handlers) w)
  ∧ emit sample_call "inReview" [VObject 0] workflow_with_handlers
    = emit draft_only_call "inReview" [VObject 0] workflow_with_handlers
  ∧ (emit draft_only_call "inReview" [VObject 0] workflow_with_handlers).1
    = Normal RThis.
Proof.
  assert (Hagree : ∀ f a w,
            sample_call f a (this workflow_with_handlers) w
            = draft_only_call f a (this workflow_with_handlers) w)
    by (intros f a w; reflexivity).
  split; [exact Hagree|]. split; [|reflexivity].
  exact (emit_shows_engine_before_transition sample_call draft_only_call
           workflow_with_handlers "inReview" [VObject 0] Hagree).
Defined.

(** X13 on the workflow: registering under ['draft'] and ['inReview'] in
    either order. *)
Lemma on_commutes_across_states_witness :
  wf (this workflow_with_handlers)
  ∧ "draft" ≠ "inReview"
  ∧ run_calls sample_call [Call_on "draft" 3%nat; Call_on "inReview" 4%nat]
      workflow_with_handlers
    = run_calls sample_call [Call_on "inReview" 4%nat; Call_on "draft" 3%nat]
        workflow_with_handlers.
Proof.
  assert (Hwf : wf (this workflow_with_handlers)) by compute_done.
  assert (Hne : "draft" ≠ "inReview") by compute_done.
  split_and!; [exact Hwf|exact Hne|].
  exact (on_commutes_across_states sample_call workflow_with_handlers
           "draft" "inReview" 3%nat 4%nat Hwf Hne).
Defined.

(** ** What a dispatch tells its caller, and whom it calls *)

Section Outcome.

Context {W : Type}.
Variable call_fn : fn → list value → FSM → W → completion unit * W.

Lemma called_subset hs args e (w : W) g :
  g ∈ called call_fn hs args e w → g ∈ hs.
Proof.
  revert w. induction hs as [|h hs IH]; intros w; simpl.
  - by intros ?%elem_of_nil.
  - intros [->|Hin]%elem_of_cons; [by left|]. right.
    destruct (call_fn h args e w) as [[[]|x] w1]; [by eapply IH|].
    by apply elem_of_nil in Hin.
Qed.

Lemma canTransitionTo_false_no_transition (m : machine W) s :
  canTransitionTo s m = (Normal false, m) →
  ¬ transition (_allowedTransitions (this m)) (currentState (this m)) s.
Proof.
  rewrite canTransitionTo_eq. unfold transition.
  destruct (get_prop _ _) as [[outgoing|]|]; [|tauto..].
  intros [= Hout]. by apply bool_decide_eq_false in Hout.
Qed.

(** The three possible answers of [canTransitionTo]. *)
Lemma canTransitionTo_cases (m : machine W) s :
  canTransitionTo s m = (Normal true, m)
  ∨ canTransitionTo s m = (Normal false, m)
  ∨ canTransitionTo s m = (Throw TypeError, m).
Proof.
  rewrite canTransitionTo_eq.
  destruct (get_prop _ _) as [[outgoing|]|]; [|tauto..].
  destruct (bool_decide (s ∈ outgoing)); tauto.
Qed.

(** X14. The result of [emit] tells the caller what happened.  When [emit]
    returns the engine, the requested state was a known state and a
    declared transition from the current state, and it is now the current
    state.  When [emit] returns a boolean, it is false, the request was for
    an unknown state or for an undeclared transition, an error handler is
    set, and the engine is as it was.  When [emit] throws, the engine is as
    it was. *)
Theorem emit_result_tells_outcome
    (m : machine W) (s : string) (args : list value) :
  let r := emit call_fn s args m in
  let e := this m in
  (r.1 = Normal RThis →
   s ∈ _knownStates e
   ∧ transition (_allowedTransitions e) (currentState e) s
   ∧ this r.2 = assign_currentState e s)
  ∧ (∀ b, r.1 = Normal (RBool b) →
     b = false
     ∧ (s ∉ _knownStates e
        ∨ ¬ transition (_allowedTransitions e) (currentState e) s)
     ∧ is_Some (_errorHandler e)
     ∧ this r.2 = e)
  ∧ (∀ x, r.1 = Throw x → this r.2 = e).
Proof.
  intros r e. subst r e.
  assert (∀ msg,
            let r := (handleError call_fn msg;; mret (RBool false)) m in
            r.1 ≠ Normal RThis
            ∧ (∀ b, r.1 = Normal (RBool b) →
                    b = false ∧ is_Some (_errorHandler (this m)))
            ∧ this r.2 = this m) as Hrej.
  { intros msg r. subst r. rewrite reject_eq.
    destruct (_errorHandler (this m)) as [f|]; [|by split_and!].
    destruct (call_fn f [VString msg] (this m) (heap m)) as [[[]|x] w]; simpl.
    - split_and!; [done| |done]. intros b [= <-]. eauto.
    - by split_and!. }
  destruct (decide (s ∈ _knownStates (this m))) as [Hs|Hs].
  - destruct (canTransitionTo_cases m s) as [Hc|[Hc|Hc]].
    + pose proof (transition_canTransitionTo m s Hc) as Htr.
      rewrite emit_allowed by done.
      destruct (_transitions (this m) !! ANY) as [ha|]; [|by split_and!].
      destruct (_transitions (this m) !! s) as [hs|]; cbv zeta.
      * destruct (call_each _ _ _ _ _) as [[[]|x] w]; simpl; by split_and!.
      * destruct (call_each _ _ _ _ _) as [[[]|x] w]; simpl; by split_and!.
    + pose proof (canTransitionTo_false_no_transition m s Hc) as Htr.
      rewrite emit_disallowed by done.
      match goal with
      | |- context [handleError call_fn ?msg] =>
          destruct (Hrej msg) as (H1 & H2 & H3)
      end.
      split_and!; [done| |by rewrite H3].
      intros b Hb. destruct (H2 b Hb) as [-> ?]. split_and!; auto.
    + rewrite emit_TypeError by done. by split_and!.
  - rewrite emit_unknown by done.
    match goal with
    | |- context [handleError call_fn ?msg] =>
        destruct (Hrej msg) as (H1 & H2 & H3)
    end.
    split_and!; [done| |by rewrite H3].
    intros b Hb. destruct (H2 b Hb) as [-> ?]. split_and!; auto.
Qed.

(** Every call [emit] makes. *)
Lemma emit_calls (m : machine W) (s : string) (args : list value) (ev : event) :
  ev ∈ calls (emit call_fn s args m).2 →
  ev ∈ calls m
  ∨ (∃ g, ev = HandlerCall g args
          ∧ (g ∈ handlers (this m) ANY ∨ g ∈ handlers (this m) s)
          ∧ s ∈ _knownStates (this m))
  ∨ (∃ f msg, ev = ErrorCall f msg ∧ _errorHandler (this m) = Some f).
Proof.
  assert (∀ msg,
            ev ∈ calls ((handleError call_fn msg;; mret (RBool false)) m).2 →
            ev ∈ calls m
            ∨ ∃ f msg, ev = ErrorCall f msg ∧ _errorHandler (this m) = Some f)
    as Hrej.
  { intros msg. rewrite reject_eq.
    destruct (_errorHandler (this m)) as [f|]; [|by left].
    destruct (call_fn f [VString msg] (this m) (heap m)) as [c w]; simpl.
    intros [?|Hev%list_elem_of_singleton]%elem_of_app; [by left|].
    subst ev. right. eauto. }
  assert (∀ hs, ev ∈ calls m ++ handler_calls
                        (called call_fn hs args (this m) (heap m)) args →
                ev ∈ calls m ∨ ∃ g, ev = HandlerCall g args ∧ g ∈ hs) as Hrun.
  { intros hs [?|Hin]%elem_of_app; [by left|]. right.
    unfold handler_calls in Hin.
    apply list_elem_of_fmap in Hin as (g & -> & Hg).
    exists g. split; [done|]. by eapply called_subset. }
  destruct (decide (s ∈ _knownStates (this m))) as [Hs|Hs].
  - destruct (canTransitionTo_cases m s) as [Hc|[Hc|Hc]].
    + rewrite emit_allowed by done. unfold handlers.
      destruct (_transitions (this m) !! ANY) as [ha|]; [|by left].
      destruct (_transitions (this m) !! s) as [hs|]; cbv zeta.
      * destruct (call_each _ _ _ _ _) as [[[]|x] w]; simpl;
          intros [?|(g & -> & Hg)]%Hrun; [by left| |by left|];
          right; left; exists g; (split_and!; [done| |done]);
          by apply elem_of_app in Hg.
      * destruct (call_each _ _ _ _ _) as [[[]|x] w]; simpl;
          intros [?|(g & -> & Hg)]%Hrun; [by left| |by left|];
          right; left; exists g; (split_and!; [done| |done]); by left.
    + rewrite emit_disallowed by done. intros [?|?]%Hrej; auto.
    + rewrite emit_TypeError by done. by left.
  - rewrite emit_unknown by done. intros [?|?]%Hrej; auto.
Qed.

(** X15. [emit] calls nobody else.  A transition handler it calls is
    called with [args] and is registered under the wildcard or under the
    requested state: a function registered under other states only is not
    called.  The only function it calls as error handler is the one set by
    [onError]. *)
Theorem emit_calls_only_registered
    (m : machine W) (s : string) (args : list value) :
  let m' := (emit call_fn s args m).2 in
  (∀ g a, HandlerCall g a ∈ calls m' → HandlerCall g a ∉ calls m →
          a = args ∧ (g ∈ handlers (this m) ANY ∨ g ∈ handlers (this m) s))
  ∧ (∀ g a, g ∉ handlers (this m) ANY → g ∉ handlers (this m) s →
            HandlerCall g a ∈ calls m' → HandlerCall g a ∈ calls m)
  ∧ (∀ f msg, ErrorCall f msg ∈ calls m' → ErrorCall f msg ∉ calls m →
              _errorHandler (this m) = Some f).
Proof.
  intros m'. subst m'. split_and!.
  - intros g a Hin Hnew.
    apply emit_calls in Hin as [?|[(g' & [= -> ->] & Hg & _)|(f & msg & [=] & _)]];
      done.
  - intros g a Hany Hs Hin.
    apply emit_calls in Hin as [?|[(g' & [= -> ->] & [?|?] & _)|(f & msg & [=] & _)]];
      done.
  - intros f msg Hin Hnew.
    apply emit_calls in Hin as [?|[(g' & [=] & _)|(f' & msg' & [= -> ->] & ?)]];
      done.
Qed.

(** While the registry's method is shadowed no handler can be registered:
    every handler sequence of an engine a caller can get hold of is then
    empty. *)
Lemma perform_pristine c (m : machine W) :
  wf (this m) →
  (method_shadowed (this m) → ∀ k, handlers (this m) k = []) →
  method_shadowed (this (perform call_fn c m).2) →
  ∀ k, handlers (this (perform call_fn c m).2) k = [].
Proof.
  assert (∀ s hs, wf (this m) → ¬ method_shadowed (this m) →
                  ¬ unknown_state (this m) s →
                  ¬ method_shadowed
                      (assign_transitions (this m)
                         (<[s := hs]> (_transitions (this m))))) as Hkeep.
  { intros s hs Hwf Hm Hk. rewrite method_shadowed_assigned; [done|].
    by eapply legal_not_method. }
  intros Hwf Hinv.
  destruct c as [s h|s h|h|s|s|s args]; cbn [perform].
  - rewrite on_eq. repeat case_decide; cbn [snd this]; [done..|].
    intros Hsh. exfalso. eapply Hkeep; [exact Hwf|done|done|exact Hsh].
  - rewrite off_eq. repeat case_decide; cbn [snd this]; [done..|].
    intros Hsh. exfalso. eapply Hkeep; [exact Hwf|done|done|exact Hsh].
  - exact Hinv.
  - unfold mbind, M_bind. by rewrite isValid_eq.
  - unfold mbind, M_bind. rewrite canTransitionTo_eq.
    by destruct (get_prop _ _) as [[outgoing|]|].
  - by destruct (emit_this call_fn s args m) as [->|(-> & _)].
Qed.

Lemma reachable_pristine transitions initialState (w : W) cs :
  let m := run_calls call_fn cs
             (mkMachine (new_FSM transitions initialState) w []) in
  method_shadowed (this m) → ∀ k, handlers (this m) k = [].
Proof.
  assert (∀ (m : machine W),
            wf (this m) →
            (method_shadowed (this m) → ∀ k, handlers (this m) k = []) →
            method_shadowed (this (run_calls call_fn cs m)) →
            ∀ k, handlers (this (run_calls call_fn cs m)) k = []) as Hgen.
  { induction cs as [|c cs IH]; intros m Hwf Hinv; [done|].
    change (run_calls call_fn (c :: cs) m)
      with (run_calls call_fn cs (perform call_fn c m).2).
    apply IH; [by apply wf_perform|by apply perform_pristine]. }
  apply Hgen; [apply wf_new_FSM|].
  intros _ k. apply new_FSM_handlers.
Qed.

(** X16. On an engine built by the constructor and any sequence of method
    calls: after [off(s, h)], a dispatch to [s] does not call [h], unless
    [h] is also registered under the wildcard. *)
Theorem emit_after_off_does_not_call
    (transitions : list (string * option (list string)))
    (initialState : string) (w : W) (cs : list method_call)
    (s : string) (h : fn) (args a : list value) :
  let m := run_calls call_fn cs
             (mkMachine (new_FSM transitions initialState) w []) in
  s ≠ ANY →
  h ∉ handlers (this m) ANY →
  HandlerCall h a ∉ calls m →
  HandlerCall h a ∉ calls (emit call_fn s args (off s h m).2).2.
Proof.
  intros m Hne Hany Hold Hin.
  pose proof (reachable_pristine transitions initialState w cs) as Hinv.
  fold m in Hinv. cbv zeta in Hinv.
  apply emit_calls in Hin as [Hin|[(g & [= <- _] & Hg & Hs)|(f & msg & [=] & _)]].
  - revert Hin. rewrite off_eq. by repeat case_decide.
  - revert Hg Hs. rewrite off_eq.
    destruct (decide (unknown_state (this m) s)) as [[_ Hu]|Hk];
      cbn [snd]; [done|].
    destruct (decide (method_shadowed (this m))) as [Hm|Hm]; cbn [snd].
    + rewrite !(Hinv Hm). by intros [?%elem_of_nil|?%elem_of_nil].
    + cbn [this]. rewrite handlers_assigned_ne, handlers_assigned by done.
      fold (handlers (this m) ANY). rewrite list_elem_of_filter.
      intros [?|[? _]] _; done.
Qed.

End Outcome.

(** X14 on the workflow: the dispatch to ['inReview'] returns the engine,
    the dispatch to ['published'] returns false. *)
Lemma emit_result_tells_outcome_witness :
  (emit sample_call "inReview" [VObject 0] workflow_with_handlers).1
    = Normal RThis
  ∧ transition publishWorkflow_table "draft" "inReview"
  ∧ currentState
      (this (emit sample_call "inReview" [VObject 0] workflow_with_handlers).2)
    = "inReview"
  ∧ (emit sample_call "published" [VObject 0] workflow_with_handlers).1
    = Normal (RBool false)
  ∧ ¬ transition publishWorkflow_table "draft" "published".
Proof.
  assert (Hok : (emit sample_call "inReview" [VObject 0]
                   workflow_with_handlers).1 = Normal RThis) by reflexivity.
  assert (Hno : (emit sample_call "published" [VObject 0]
                   workflow_with_handlers).1 = Normal (RBool false))
    by reflexivity.
  destruct (emit_result_tells_outcome sample_call workflow_with_handlers
              "inReview" [VObject 0]) as (Hthis & _ & _).
  destruct (emit_result_tells_outcome sample_call workflow_with_handlers
              "published" [VObject 0]) as (_ & Hfalse & _).
  destruct (Hthis Hok) as (_ & Htr & Hcur).
  destruct (Hfalse false Hno) as (_ & [Hs|Hntr] & _ & _).
  - exfalso. apply Hs. compute_done.
  - split_and!; [exact Hok|exact Htr|by rewrite Hcur|exact Hno|exact Hntr].
Defined.

(** X15 on the workflow: the call of function 2 in the dispatch to
    ['inReview'] is a call with the dispatch's arguments of a function
    registered under ['inReview']. *)
Lemma emit_calls_only_registered_witness :
  HandlerCall 2%nat [VObject 0]
    ∈ calls (emit sample_call "inReview" [VObject 0] workflow_with_handlers).2
  ∧ (HandlerCall 2%nat [VObject 0] ∉ calls workflow_with_handlers)
  ∧ (2%nat ∈ handlers (this workflow_with_handlers) ANY
     ∨ 2%nat ∈ handlers (this workflow_with_handlers) "inReview").
Proof.
  assert (Hin : HandlerCall 2%nat [VObject 0]
                  ∈ calls (emit sample_call "inReview" [VObject 0]
                             workflow_with_handlers).2).
  { vm_compute. right. left. }
  assert (Hnew : HandlerCall 2%nat [VObject 0] ∉ calls workflow_with_handlers).
  { vm_compute. apply not_elem_of_nil. }
  split; [exact Hin|]. split; [exact Hnew|].
  exact (proj2 (proj1 (emit_calls_only_registered sample_call
                         workflow_with_handlers "inReview" [VObject 0])
                  2%nat [VObject 0] Hin Hnew)).
Defined.

(** X16 on the workflow: after unregistering function 2 from ['inReview'],
    the dispatch to ['inReview'] calls function 1 only. *)
Lemma emit_after_off_does_not_call_witness :
  "inReview" ≠ ANY
  ∧ (2%nat ∉ handlers (this workflow_with_handlers) ANY)
  ∧ (HandlerCall 2%nat [VObject 0] ∉ calls workflow_with_handlers)
  ∧ (HandlerCall 2%nat [VObject 0]
       ∉ calls (emit sample_call "inReview" [VObject 0]
                  (off "inReview" 2%nat workflow_with_handlers).2).2)
  ∧ calls (emit sample_call "inReview" [VObject 0]
             (off "inReview" 2%nat workflow_with_handlers).2).2
    = [HandlerCall 1%nat [VObject 0]].
Proof.
  assert (Hne : "inReview" ≠ ANY) by compute_done.
  assert (Hany : 2%nat ∉ handlers (this workflow_with_handlers) ANY)
    by compute_done.
  assert (Hold : HandlerCall 2%nat [VObject 0] ∉ calls workflow_with_handlers).
  { vm_compute. apply not_elem_of_nil. }
  split_and!; [exact Hne|exact Hany|exact Hold| |reflexivity].
  exact (emit_after_off_does_not_call sample_call publishWorkflow_table
           "draft" []
           [Call_on ANY 1%nat; Call_on "inReview" 2%nat;
            Call_on "inReview" 2%nat; Call_onError 5%nat]
           "inReview" 2%nat [VObject 0] [VObject 0] Hne Hany Hold).
Defined.

(** ** [on] and [off], case by case *)

Section Registration.

Context {W : Type}.

(** X17. [on(s, h)], case by case.  For a state that is neither the
    wildcard nor known it throws the unknown-state error.  Otherwise, when
    the registry owns an entry named [hasOwnProperty], it throws a
    [TypeError]; in both cases nothing changes.  Otherwise it returns the
    engine, having appended [h] to the handler sequence of [s] and left
    the other sequences alone; except that for the state named [__proto__]
    the sequence afterwards is [h] alone. *)
Theorem on_appends_or_rejects (m : machine W) (s : string) (h : fn) :
  let e := this m in
  let m' := mkMachine
              (assign_transitions e
                 (<[s := own_handlers e s ++ [h]]> (_transitions e)))
              (heap m) (calls m) in
  (s ≠ ANY ∧ s ∉ _knownStates e →
   on s h m =
     (Throw (Error ("Unable to hook up handler to unknown state "
                    +:+ s +:+ "!")), m))
  ∧ (s = ANY ∨ s ∈ _knownStates e → method_shadowed e →
     on s h m = (Throw TypeError, m))
  ∧ (s = ANY ∨ s ∈ _knownStates e → ¬ method_shadowed e →
     on s h m = (Normal RThis, m')
     ∧ (∀ k, k ≠ s → handlers (this m') k = handlers e k)
     ∧ (s ≠ "__proto__" → handlers (this m') s = handlers e s ++ [h])
     ∧ (s = "__proto__" → handlers (this m') s = [h])).
Proof.
  intros e m'. rewrite on_eq. fold e. split_and!.
  - intros Hu. by rewrite decide_True.
  - intros Hlegal Hm.
    rewrite decide_False by (intros [? ?]; by destruct Hlegal).
    by rewrite decide_True.
  - intros Hlegal Hm.
    rewrite decide_False by (intros [? ?]; by destruct Hlegal).
    rewrite decide_False by done. subst m'. cbn [this]. split_and!.
    + done.
    + intros k Hne. by rewrite handlers_assigned_ne.
    + intros Hp. by rewrite handlers_assigned, own_handlers_eq.
    + intros Hp. rewrite handlers_assigned. unfold own_handlers.
      by rewrite decide_True.
Qed.

(** X18. [off(s, h)], case by case.  For a state that is neither the
    wildcard nor known it throws the unknown-state error.  Otherwise, when
    the registry owns an entry named [hasOwnProperty], it throws a
    [TypeError]; in both cases nothing changes.  Otherwise it returns the
    engine, having replaced the handler sequence of [s] by that sequence
    without any occurrence of [h], the other handlers staying in their
    order, and having left the other sequences alone; when [h] was not
    registered under [s], nothing changes at all.  Except that for the
    state named [__proto__] the sequence afterwards is empty. *)
Theorem off_removes_every_occurrence (m : machine W) (s : string) (h : fn) :
  wf (this m) →
  let e := this m in
  let kept := filter (λ g, g ≠ h) (own_handlers e s) in
  let m' := mkMachine (assign_transitions e (<[s := kept]> (_transitions e)))
              (heap m) (calls m) in
  (s ≠ ANY ∧ s ∉ _knownStates e →
   off s h m =
     (Throw (Error ("Unable to remove handler from unknown state "
                    +:+ s +:+ "!")), m))
  ∧ (s = ANY ∨ s ∈ _knownStates e → method_shadowed e →
     off s h m = (Throw TypeError, m))
  ∧ (s = ANY ∨ s ∈ _knownStates e → ¬ method_shadowed e →
     off s h m = (Normal RThis, m')
     ∧ (∀ k, k ≠ s → handlers (this m') k = handlers e k)
     ∧ (s = "__proto__" → handlers (this m') s = [])
     ∧ (s ≠ "__proto__" →
        handlers (this m') s = filter (λ g, g ≠ h) (handlers e s)
        ∧ (h ∉ handlers (this m') s)
        ∧ (∀ g, g ≠ h → g ∈ handlers e s → g ∈ handlers (this m') s)
        ∧ handlers (this m') s `sublist_of` handlers e s
        ∧ (h ∉ handlers e s → off s h m = (Normal RThis, m)))).
Proof.
  intros Hwf e kept m'. rewrite off_eq. fold e. split_and!.
  - intros Hu. by rewrite decide_True.
  - intros Hlegal Hm.
    rewrite decide_False by (intros [? ?]; by destruct Hlegal).
    by rewrite decide_True.
  - intros Hlegal Hm.
    assert (¬ unknown_state e s) as Hk by (intros [? ?]; by destruct Hlegal).
    rewrite !decide_False by done. fold kept. fold m'.
    subst m'. cbn [this]. split_and!.
    + done.
    + intros k Hne. by rewrite handlers_assigned_ne.
    + intros Hp. rewrite handlers_assigned. subst kept. unfold own_handlers.
      by rewrite decide_True.
    + intros Hp. rewrite handlers_assigned. subst kept.
      rewrite own_handlers_eq by done. split_and!.
      * done.
      * rewrite list_elem_of_filter. by intros [? _].
      * intros g Hne Hin. by apply list_elem_of_filter.
      * apply sublist_filter.
      * intros Hout. rewrite filter_absent by done.
        destruct (legal_owned e s Hwf Hk) as [hs Hhs].
        unfold handlers. rewrite Hhs. simpl.
        rewrite insert_id by done. rewrite assign_transitions_id.
        subst e. by rewrite machine_eta.
Qed.

End Registration.

(** X17 on the workflow, and on the table with a state named
    ['hasOwnProperty']. *)
Lemma on_appends_or_rejects_witness :
  on "nopenopenope" 7%nat workflow_with_handlers
    = (Throw (Error "Unable to hook up handler to unknown state nopenopenope!"),
       workflow_with_handlers)
  ∧ method_shadowed (this (fresh (new_FSM shadowing_table "draft")))
  ∧ on "draft" 7%nat (fresh (new_FSM shadowing_table "draft"))
    = (Throw TypeError, fresh (new_FSM shadowing_table "draft"))
  ∧ ¬ method_shadowed (this workflow_with_handlers)
  ∧ (on "inReview" 7%nat workflow_with_handlers).1 = Normal RThis
  ∧ handlers (this (on "inReview" 7%nat workflow_with_handlers).2) "inReview"
    = [2; 2; 7]%nat.
Proof.
  assert (Hsh : method_shadowed (this (fresh (new_FSM shadowing_table "draft"))))
    by compute_done.
  assert (Hm : ¬ method_shadowed (this workflow_with_handlers))
    by compute_done.
  destruct (on_appends_or_rejects workflow_with_handlers "nopenopenope" 7%nat)
    as (Hthrow & _ & _).
  destruct (on_appends_or_rejects (fresh (new_FSM shadowing_table "draft"))
              "draft" 7%nat) as (_ & Htype & _).
  destruct (on_appends_or_rejects workflow_with_handlers "inReview" 7%nat)
    as (_ & _ & Hok).
  destruct Hok as (Hon & _ & Hhs & _); [right; compute_done|exact Hm|].
  split_and!.
  - apply Hthrow. compute_done.
  - exact Hsh.
  - apply Htype; [right; compute_done|exact Hsh].
  - exact Hm.
  - by rewrite Hon.
  - rewrite Hon. apply Hhs. compute_done.
Defined.

(** X18 on the workflow: unregistering function 2 from ['inReview'] removes
    both of its registrations; unregistering function 7, which is not
    registered, changes nothing. *)
Lemma off_removes_every_occurrence_witness :
  wf (this workflow_with_handlers)
  ∧ ¬ method_shadowed (this workflow_with_handlers)
  ∧ (off "inReview" 2%nat workflow_with_handlers).1 = Normal RThis
  ∧ handlers (this (off "inReview" 2%nat workflow_with_handlers).2) "inReview"
    = []
  ∧ off "inReview" 7%nat workflow_with_handlers
    = (Normal RThis, workflow_with_handlers).
Proof.
  assert (Hwf : wf (this workflow_with_handlers)) by compute_done.
  assert (Hm : ¬ method_shadowed (this workflow_with_handlers))
    by compute_done.
  assert (Hp : "inReview" ≠ "__proto__") by compute_done.
  destruct (off_removes_every_occurrence workflow_with_handlers "inReview"
              2%nat Hwf) as (_ & _ & Hok).
  destruct (off_removes_every_occurrence workflow_with_handlers "inReview"
              7%nat Hwf) as (_ & _ & Hnoop).
  destruct Hok as (Hoff & _ & _ & Hkept); [right; compute_done|exact Hm|].
  destruct Hnoop as (_ & _ & _ & Hsame); [right; compute_done|exact Hm|].
  split_and!; [exact Hwf|exact Hm|by rewrite Hoff| |].
  - rewrite Hoff. cbn [snd]. rewrite (proj1 (Hkept Hp)). reflexivity.
  - apply (Hsame Hp). compute_done.
Defined.
